(** * online_microstates: the acquisition loop of a neurofeedback session

    A shallow embedding of [online_microstates.py]: the configuration
    check, the stream locator and the [run] protocol with its start-up
    gate and its main acquisition loop.

    The configuration module is a finite map from attribute names to
    Python values; the gate, the session timer and the stream receiver
    are external, so each of them is a list of the values its successive
    reads return.  Every function returns the trace of the effects it
    performs together with its outcome.

    Timestamps and timer readings are rationals: the code only compares
    them and copies them, and the order of finite floats is the order of
    the rationals they denote. *)

From Stdlib Require Import ZArith QArith Lia Ascii.
From stdpp Require Import gmap strings list fin_maps sorting.

Local Open Scope Z_scope.

(** ** Python values, exceptions, effects *)

Inductive pyval : Type :=
| PNone
| PInt (z : Z)
| PFloat (q : Q)
| PStr (s : string).

(** [sys.exit(n)] raises [SystemExit(n)]. *)
Inductive pyexc : Type :=
| RuntimeError
| AttributeError (name : string)
| UnboundLocalError (name : string)
| TypeError
| IndexError
| SystemExit (code : Z).

Inductive level : Type := INFO | WARNING | ERROR.

(** A matrix of samples, as a list of rows. *)
Definition matrix : Type := list (list Q).

Inductive event : Type :=
| Log (lv : level) (fmt : string) (args : list pyval)
    (* logger.<lv>(fmt % args) *)
| RedirectStdout (lv : level)
    (* redirect_stdout_to_queue(logger, queue, lv) *)
| SearchLsl (ignore_markers : bool)
    (* pu.search_lsl(state, ignore_markers=...) *)
| Connect (window_size buffer_size amp_serial : pyval) (eeg_only : bool)
          (amp_name : pyval)
    (* StreamReceiver(window_size=..., buffer_size=..., ...) *)
| GetSampleRate
| GetTriggerChannel
| NewTimer (autoreset : bool)
| Acquire
    (* sr.acquire(); sr.get_window() *)
| Process (window : matrix) (tslist : list Q)
    (* the marked extension point of the loop body, where the
       per-window processing runs on the transposed window *)
| AssignLastTs (ts : Q)
    (* last_ts = tslist[-1] *)
| Sleep (seconds : Z)
    (* time.sleep(seconds) *)
| SleepAtLeast (interval : pyval)
    (* internal_timer.sleep_atleast(interval) *).

(** How a computation ends.  [Pending] is not a Python outcome: the
    finite lists of gate values, timer readings and windows handed to the
    model are used up and the program is still running. *)
Inductive outcome (A : Type) : Type :=
| Ret (a : A)
| Raise (e : pyexc)
| Pending.
Arguments Ret {A} a.
Arguments Raise {A} e.
Arguments Pending {A}.

Definition prog (A : Type) : Type := (list event * outcome A)%type.

Definition ret {A} (a : A) : prog A := ([], Ret a).
Definition throw {A} (e : pyexc) : prog A := ([], Raise e).
Definition pending {A} : prog A := ([], Pending).
Definition emit (ev : event) : prog unit := ([ev], Ret tt).

Definition bind {A B} (m : prog A) (k : A -> prog B) : prog B :=
  match m with
  | (tr, Ret a) => let (tr', r) := k a in (tr ++ tr', r)
  | (tr, Raise e) => (tr, Raise e)
  | (tr, Pending) => (tr, Pending)
  end.

Notation "x <- m ;; k" := (bind m (fun x => k))
  (at level 100, m at next level, k at level 200, right associativity).
Notation "m ;;; k" := (bind m (fun _ => k))
  (at level 100, k at level 200, right associativity).

(** The exit status of the interpreter: 0 when the script runs to its
    end, the low byte of the code of an uncaught [SystemExit], 1 for any
    other uncaught exception. *)
Definition exit_status {A} (o : outcome A) : option Z :=
  match o with
  | Ret _ => Some 0
  | Raise (SystemExit c) => Some (c mod 256)
  | Raise _ => Some 1
  | Pending => None
  end.

(** ** The configuration module *)

(** [getattr(cfg, key)], raising [AttributeError] on a missing name. *)
Definition getattr (cfg : gmap string pyval) (key : string) : prog pyval :=
  match cfg !! key with
  | Some v => ret v
  | None => throw (AttributeError key)
  end.

Definition hasattr (cfg : gmap string pyval) (key : string) : bool :=
  bool_decide (is_Some (cfg !! key)).

Definition is_none (v : pyval) : bool :=
  match v with PNone => true | _ => false end.

(** The number a value stands for in an order comparison with a float;
    [None] and strings are not comparable. *)
Definition as_num (v : pyval) : option Q :=
  match v with
  | PInt z => Some (inject_Z z)
  | PFloat q => Some q
  | PNone | PStr _ => None
  end.

(** ** check_config *)

Definition critical_vars : list string := ["DATA_PATH"%string].

(** [GLOBAL_TIME] is [1.0 * 60]. *)
Definition optional_vars : list (string * pyval) :=
  [ ("AMP_NAME"%string, PNone);
    ("AMP_SERIAL"%string, PNone);
    ("GLOBAL_TIME"%string, PFloat 60);
    ("NJOBS"%string, PInt 1) ].

Definition required_msg : string := "%s is a required parameter".
Definition undefined_msg : string := "Setting undefined parameter %s=%s".

Fixpoint check_critical (keys : list string) (cfg : gmap string pyval)
  : prog unit :=
  match keys with
  | [] => ret tt
  | key :: keys' =>
      if hasattr cfg key then check_critical keys' cfg
      else emit (Log ERROR required_msg [PStr key]) ;;; throw RuntimeError
  end.

(** The second loop mutates the module; it cannot raise, so it returns
    the updated module and the warnings it logged. *)
Fixpoint set_optional (opts : list (string * pyval)) (cfg : gmap string pyval)
  : gmap string pyval * list event :=
  match opts with
  | [] => (cfg, [])
  | (key, dflt) :: opts' =>
      if hasattr cfg key then set_optional opts' cfg
      else
        let cfg1 := <[key := dflt]> cfg in
        let w := Log WARNING undefined_msg
                     [PStr key; default PNone (cfg1 !! key)] in
        let (cfg2, tr) := set_optional opts' cfg1 in
        (cfg2, w :: tr)
  end.

(** The module after the call, and the trace and outcome of the call. *)
Definition check_config (cfg : gmap string pyval)
  : gmap string pyval * prog unit :=
  match check_critical critical_vars cfg with
  | (tr, Ret _) =>
      let (cfg', tr') := set_optional optional_vars cfg in
      (cfg', (tr ++ tr', Ret tt))
  | (tr, o) => (cfg, (tr, o))
  end.

(** ** find_lsl_stream and connect_lsl_stream *)

(** [pu.search_lsl] is outside this file: the call is recorded with its
    [ignore_markers] flag, and [found] is the pair it returns. *)
Definition find_lsl_stream (cfg : gmap string pyval) (found : pyval * pyval)
  : prog (pyval * pyval) :=
  name <- getattr cfg "AMP_NAME" ;;
  both_none <- (if is_none name
                then serial <- getattr cfg "AMP_SERIAL" ;; ret (is_none serial)
                else ret false) ;;
  if (both_none : bool) then
    emit (SearchLsl true) ;;; ret found
  else
    amp_name <- getattr cfg "AMP_NAME" ;;
    amp_serial <- getattr cfg "AMP_SERIAL" ;;
    ret (amp_name, amp_serial).

Definition connect_lsl_stream (cfg : gmap string pyval)
  (amp_name amp_serial : pyval) : prog unit :=
  window_size <- getattr cfg "WINDOWSIZE" ;;
  buffer_size <- getattr cfg "STREAMBUFFER" ;;
  emit (Connect window_size buffer_size amp_serial false amp_name).

(** ** run *)

(** Strict order on timestamps and timer readings. *)
Definition Qltb (x y : Q) : bool := negb (Qle_bool y x).

(** [np.where(np.array(tslist) > last_ts)[0]]: the indices of the
    timestamps above [last_ts], counted from [i]. *)
Fixpoint where_gt (i : nat) (tslist : list Q) (last_ts : Q) : list nat :=
  match tslist with
  | [] => []
  | t :: tslist' =>
      if Qltb last_ts t then i :: where_gt (S i) tslist' last_ts
      else where_gt (S i) tslist' last_ts
  end.

(** [window.T] for a window of at least one row. *)
Fixpoint transpose (m : matrix) : matrix :=
  match m with
  | [] => []
  | [row] => map (fun x => [x]) row
  | row :: m' => zip_with cons row (transpose m')
  end.

(** [tslist[-1]]. *)
Definition final_ts (tslist : list Q) : prog Q :=
  match last tslist with
  | Some t => ret t
  | None => throw IndexError
  end.

(** [while state.value == 2: pass].  Each read takes the next value of
    the gate; the result is what is left of the gate after the read that
    ends the wait. *)
Fixpoint await_start (gate : list Z) : option (list Z) :=
  match gate with
  | [] => None
  | g :: gate' => if g =? 2 then await_start gate' else Some gate'
  end.

(** The main loop.  One read of the gate per test of the loop condition,
    and, when the gate reads 1, one reading of the global timer; one
    window per iteration.  [last_ts] is [None] while the local variable of
    that name is unbound. *)
Fixpoint main_loop (cfg : gmap string pyval) (gate : list Z) (clock : list Q)
  (stream : list (matrix * list Q)) (last_ts : option Q) : prog unit :=
  match gate with
  | [] => pending
  | g :: gate' =>
      if g =? 1 then
        match clock with
        | [] => pending
        | now :: clock' =>
            global_time <- getattr cfg "GLOBAL_TIME" ;;
            match as_num global_time with
            | None => throw TypeError
            | Some limit =>
                if Qltb now limit then
                  match stream with
                  | [] => pending
                  | (window, tslist) :: stream' =>
                      emit Acquire ;;;
                      match last_ts with
                      | None => throw (UnboundLocalError "last_ts")
                      | Some l =>
                          let tsnew := where_gt 0 tslist l in
                          if (length tsnew =? 0)%nat then
                            emit (Log WARNING
                              "There seems to be delay in receiving data." []) ;;;
                            emit (Sleep 1) ;;;
                            main_loop cfg gate' clock' stream' last_ts
                          else
                            emit (Process (transpose window) tslist) ;;;
                            t <- final_ts tslist ;;
                            emit (AssignLastTs t) ;;;
                            interval <- getattr cfg "TIMER_SLEEP" ;;
                            emit (SleepAtLeast interval) ;;;
                            main_loop cfg gate' clock' stream' (Some t)
                      end
                  end
                else ret tt
            end
        end
      else ret tt
  end.

(** What [run] observes of its environment. *)
Record world : Type := World {
  gate : list Z;                      (* successive values of state.value *)
  clock : list Q;                     (* successive global_timer.sec() *)
  stream : list (matrix * list Q);    (* successive sr.get_window() *)
  found : pyval * pyval               (* what pu.search_lsl returns *)
}.

Definition run (cfg : gmap string pyval) (w : world) : prog unit :=
  emit (RedirectStdout INFO) ;;;
  match await_start (gate w) with
  | None => pending
  | Some [] => pending
  | Some (g :: gate') =>
      if g =? 0 then throw (SystemExit (-1))
      else
        amp <- find_lsl_stream cfg (found w) ;;
        connect_lsl_stream cfg (fst amp) (snd amp) ;;;
        emit GetSampleRate ;;;
        emit GetTriggerChannel ;;;
        emit (NewTimer false) ;;;
        emit (NewTimer true) ;;;
        main_loop cfg gate' (clock w) (stream w) None
  end.

(** [batch_run] after [load_config]. *)
Definition batch_run (cfg : gmap string pyval) (w : world) : prog unit :=
  let (cfg', checked) := check_config cfg in
  checked ;;; run cfg' w.

(** ** Reading a trace *)

(** The values assigned to [last_ts], in order. *)
Definition assigned (tr : list event) : list Q :=
  omap (fun e => match e with AssignLastTs t => Some t | _ => None end) tr.

(** The windows handed to the per-window processing, in order. *)
Definition processed (tr : list event) : list (matrix * list Q) :=
  omap (fun e => match e with Process w ts => Some (w, ts) | _ => None end) tr.

(** The messages logged at a given level. *)
Definition logged (lv : level) (tr : list event) : list (string * list pyval) :=
  omap (fun e => match e, lv with
                 | Log INFO f a, INFO | Log WARNING f a, WARNING
                 | Log ERROR f a, ERROR => Some (f, a)
                 | _, _ => None
                 end) tr.

(** The calls of the pacer, [internal_timer.sleep_atleast]. *)
Definition paced (tr : list event) : list pyval :=
  omap (fun e => match e with SleepAtLeast i => Some i | _ => None end) tr.

(** The arguments of the calls of [time.sleep]. *)
Definition slept (tr : list event) : list Z :=
  omap (fun e => match e with Sleep n => Some n | _ => None end) tr.

(** The value of [last_ts] once the events of [tr] have happened, when
    it was [ls] before them. *)
Definition last_ts_after (ls : option Q) (tr : list event) : option Q :=
  match last (assigned tr) with
  | Some t => Some t
  | None => ls
  end.

(** The warning [check_config] logs for a listed name and its default. *)
Definition warning_of (kd : string * pyval) : event :=
  Log WARNING undefined_msg [PStr kd.1; kd.2].

(** ** Sample configurations *)

(** A module that defines the required name and one optional name. *)
Definition partial_cfg : gmap string pyval :=
  <["DATA_PATH"%string := PStr "/data"]>
    (<["GLOBAL_TIME"%string := PFloat 0.2]> ∅).

(** A module without [DATA_PATH]. *)
Definition headless_cfg : gmap string pyval :=
  <["AMP_NAME"%string := PStr "amp"]>
    (<["TIMER_SLEEP"%string := PFloat 0.05]> ∅).

(** A module that names the amplifier but leaves its serial [None]. *)
Definition name_only_cfg : gmap string pyval :=
  <["AMP_NAME"%string := PStr "amp"]> (<["AMP_SERIAL"%string := PNone]> ∅).

(** What a scan would return. *)
Definition scanned : pyval * pyval := (PStr "found", PStr "0001").

(** The events of one iteration of the main loop that finds no new
    timestamp: the acquisition, the warning, the one-second sleep. *)
Definition stale_round : list event :=
  [ Acquire;
    Log WARNING "There seems to be delay in receiving data." [];
    Sleep 1 ].

(** The events of [n] such iterations in a row. *)
Fixpoint stale_rounds (n : nat) : list event :=
  match n with
  | O => []
  | S n' => stale_round ++ stale_rounds n'
  end.

(** ** A sample session *)

(** A complete module: global time 0.2, minimum interval 0.05. *)
Definition session_cfg : gmap string pyval :=
  <["DATA_PATH"%string := PStr "/data"]>
  (<["AMP_NAME"%string := PStr "amp"]>
  (<["AMP_SERIAL"%string := PStr "0001"]>
  (<["GLOBAL_TIME"%string := PFloat 0.2]>
  (<["NJOBS"%string := PInt 1]>
  (<["WINDOWSIZE"%string := PInt 1]>
  (<["STREAMBUFFER"%string := PInt 1]>
  (<["TIMER_SLEEP"%string := PFloat 0.05]> ∅))))))).

(** Readings of the global timer, one per test of the loop condition. *)
Definition session_clock : list Q :=
  [0; 0.05; 0.1; 0.15; 0.2; 0.25]%Q.

(** Windows of two samples on two channels; the timestamps increase
    strictly within a window and from one window to the next. *)
Definition fresh_stream : list (matrix * list Q) :=
  [ ([[11; 12]; [21; 22]], [1; 2]);
    ([[21; 22]; [31; 32]], [2; 3]);
    ([[31; 32]; [41; 42]], [3; 4]);
    ([[41; 42]; [51; 52]], [4; 5]);
    ([[51; 52]; [61; 62]], [5; 6]);
    ([[61; 62]; [71; 72]], [6; 7]) ]%Q.

(** The same window three times over. *)
Definition stale_stream : list (matrix * list Q) :=
  [ ([[11; 12]; [21; 22]], [1; 2]);
    ([[11; 12]; [21; 22]], [1; 2]);
    ([[11; 12]; [21; 22]], [1; 2]) ]%Q.

(** A session whose gate reads Run at every read. *)
Definition session : world :=
  {| gate := [1; 1; 1; 1; 1; 1; 1; 1];
     clock := session_clock;
     stream := fresh_stream;
     found := scanned |}.

(** ** load_config *)

(** [os.path] is taken to be [posixpath]: the separator is the slash. *)
Definition is_slash (a : Ascii.ascii) : bool := Ascii.eqb a "/"%char.
Definition is_dot (a : Ascii.ascii) : bool := Ascii.eqb a "."%char.

Fixpoint has_slash (p : string) : bool :=
  match p with
  | EmptyString => false
  | String a p' => is_slash a || has_slash p'
  end.

(** [sep * len(p) == p]. *)
Fixpoint all_slashes (p : string) : bool :=
  match p with
  | EmptyString => true
  | String a p' => is_slash a && all_slashes p'
  end.

(** [i = p.rfind('/') + 1; p[:i], p[i:]]. *)
Fixpoint cut_last_slash (p : string) : string * string :=
  match p with
  | EmptyString => (EmptyString, EmptyString)
  | String a p' =>
      if has_slash p' then
        let (head, tail) := cut_last_slash p' in (String a head, tail)
      else if is_slash a then (String a EmptyString, p')
      else (EmptyString, String a p')
  end.

(** [p.rstrip('/')]. *)
Fixpoint rstrip_slash (p : string) : string :=
  match p with
  | EmptyString => EmptyString
  | String a p' =>
      if is_slash a && all_slashes p' then EmptyString
      else String a (rstrip_slash p')
  end.

(** [os.path.split(p)]. *)
Definition path_split (p : string) : string * string :=
  let (head, tail) := cut_last_slash p in
  if negb (String.eqb head EmptyString) && negb (all_slashes head)
  then (rstrip_slash head, tail)
  else (head, tail).

(** [s.split('.')[0]]: what comes before the first dot. *)
Fixpoint before_dot (s : string) : string :=
  match s with
  | EmptyString => EmptyString
  | String a s' => if is_dot a then EmptyString else String a (before_dot s')
  end.

(** How [import_module] ends: with the module, with [ValueError] on an
    empty name, or with [ModuleNotFoundError]. *)
Inductive imported : Type :=
| Imported (module : gmap string pyval)
| EmptyModuleName
| ModuleNotFound (name : string).

(** The import system is outside this file: [finder] is what it finds
    for an absolute module name under a given [sys.path]. *)
Definition import_module
    (finder : list string -> string -> option (gmap string pyval))
    (sys_path : list string) (name : string) : imported :=
  if String.eqb name EmptyString then EmptyModuleName
  else match finder sys_path name with
       | Some module => Imported module
       | None => ModuleNotFound name
       end.

(** [load_config]: [sys.path] after the call, and how the import ends. *)
Definition load_config
    (finder : list string -> string -> option (gmap string pyval))
    (sys_path : list string) (cfg_file : string) : list string * imported :=
  let (head, tail) := path_split cfg_file in
  let sys_path' := sys_path ++ [head] in
  (sys_path', import_module finder sys_path' (before_dot tail)).

(** The characters of a string. *)
Fixpoint chars (s : string) : list Ascii.ascii :=
  match s with
  | EmptyString => []
  | String a s' => a :: chars s'
  end.

(** ** More readings of a trace *)

(** The number of windows acquired. *)
Definition acquired (tr : list event) : nat :=
  length (omap (fun e => match e with Acquire => Some tt | _ => None end) tr).

(** The amplifiers connected to, as (name, serial). *)
Definition connected (tr : list event) : list (pyval * pyval) :=
  omap (fun e => match e with
                 | Connect _ _ amp_serial _ amp_name =>
                     Some (amp_name, amp_serial)
                 | _ => None
                 end) tr.

(** The length of the longest prefix of [l] on which [f] holds. *)
Fixpoint leading {A} (f : A -> bool) (l : list A) : nat :=
  match l with
  | [] => O
  | x :: l' => if f x then S (leading f l') else O
  end.

(** A finder that knows one module, whatever [sys.path] is. *)
Definition one_module (name : string) (module : gmap string pyval)
  : list string -> string -> option (gmap string pyval) :=
  fun _ asked => if String.eqb asked name then Some module else None.

(** A session whose gate reads Run at every read and whose stream gives
    the same window at every call. *)
Definition stale_session : world :=
  {| gate := [1; 1; 1; 1; 1; 1; 1; 1];
     clock := session_clock;
     stream := stale_stream;
     found := scanned |}.

(** The sample session's module with [GLOBAL_TIME] set to [None]. *)
Definition untimed_cfg : gmap string pyval :=
  <["GLOBAL_TIME"%string := PNone]> session_cfg.

(** * Properties *)

(** ** check_config *)

Section CheckConfig.

Implicit Types (cfg : gmap string pyval) (key : string).

Lemma hasattr_Some cfg key v : cfg !! key = Some v -> hasattr cfg key = true.
Proof. intros H. unfold hasattr. apply bool_decide_eq_true. by exists v. Qed.

Lemma hasattr_None cfg key : cfg !! key = None -> hasattr cfg key = false.
Proof.
  intros H. unfold hasattr. apply bool_decide_eq_false.
  rewrite H. by intros [? ?].
Qed.

Lemma hasattr_false cfg key : hasattr cfg key = false -> cfg !! key = None.
Proof.
  unfold hasattr. intros H%bool_decide_eq_false.
  by apply eq_None_not_Some.
Qed.

(** The module after the second loop: what was there stays, what was
    missing gets the first default listed for it. *)
Lemma set_optional_lookup opts cfg key :
  (set_optional opts cfg).1 !! key
  = match cfg !! key with
    | Some v => Some v
    | None => (list_to_map opts : gmap string pyval) !! key
    end.
Proof.
  revert cfg. induction opts as [|[k d] opts IH]; intros cfg; simpl.
  - rewrite lookup_empty. by destruct (cfg !! key).
  - destruct (hasattr cfg k) eqn:Hk.
    + rewrite IH. destruct (cfg !! key) eqn:Hkey; [done|].
      rewrite lookup_insert_ne; [done|].
      intros ->. apply hasattr_None in Hkey. congruence.
    + apply hasattr_false in Hk.
      destruct (set_optional opts (<[k:=d]> cfg)) as [cfg2 tr] eqn:Hrec.
      simpl. replace cfg2 with (set_optional opts (<[k:=d]> cfg)).1
        by (by rewrite Hrec).
      rewrite IH. destruct (decide (k = key)) as [->|Hne].
      * rewrite !lookup_insert_eq. by rewrite Hk.
      * rewrite !lookup_insert_ne by done. done.
Qed.

(** The warnings of the second loop: one per listed name that is
    missing, in the order of the list. *)
Lemma set_optional_trace opts cfg :
  NoDup opts.*1 ->
  (set_optional opts cfg).2
  = warning_of <$> List.filter (fun kd => negb (hasattr cfg kd.1)) opts.
Proof.
  revert cfg. induction opts as [|[k d] opts IH]; intros cfg Hnd; [done|].
  apply NoDup_cons in Hnd as [Hk Hnd]. simpl.
  destruct (hasattr cfg k) eqn:Hh; simpl; [by apply IH|].
  destruct (set_optional opts (<[k:=d]> cfg)) as [cfg2 tr] eqn:Hrec.
  simpl. rewrite lookup_insert_eq. simpl. unfold warning_of at 1. simpl.
  f_equal. replace tr with (set_optional opts (<[k:=d]> cfg)).2
    by (by rewrite Hrec).
  rewrite IH by done. f_equal.
  clear -Hk. induction opts as [|[k' d'] opts IH]; [done|].
  simpl in *. apply not_elem_of_cons in Hk as [Hne Hk].
  assert (hasattr (<[k:=d]> cfg) k' = hasattr cfg k') as ->.
  { unfold hasattr. by rewrite lookup_insert_ne. }
  destruct (hasattr cfg k'); simpl; [by apply IH|]. f_equal. by apply IH.
Qed.

Lemma check_config_missing cfg :
  cfg !! "DATA_PATH"%string = None ->
  check_config cfg
  = (cfg, ([Log ERROR required_msg [PStr "DATA_PATH"]], Raise RuntimeError)).
Proof.
  intros H. unfold check_config, critical_vars, check_critical.
  rewrite (hasattr_None _ _ H). reflexivity.
Qed.

Lemma check_config_present cfg v :
  cfg !! "DATA_PATH"%string = Some v ->
  check_config cfg
  = ((set_optional optional_vars cfg).1,
     ((set_optional optional_vars cfg).2, Ret tt)).
Proof.
  intros H. unfold check_config, critical_vars, check_critical.
  rewrite (hasattr_Some _ _ _ H). unfold ret.
  destruct (set_optional optional_vars cfg); reflexivity.
Qed.

End CheckConfig.

(** C8: [check_config] raises (a [RuntimeError], after an ERROR log) if
    and only if [DATA_PATH] is missing.  Otherwise it returns, every
    listed optional name that is missing gets its default ([AMP_NAME] and
    [AMP_SERIAL] [None], [GLOBAL_TIME] 60.0, [NJOBS] 1) with one warning
    each and no other log, and every name already present keeps its
    value. *)
Theorem check_config_spec (cfg cfg' : gmap string pyval)
    (tr : list event) (o : outcome unit) :
  check_config cfg = (cfg', (tr, o)) ->
  (o = Raise RuntimeError <-> cfg !! "DATA_PATH"%string = None) /\
  (is_Some (cfg !! "DATA_PATH"%string) ->
   o = Ret tt /\
   (forall k d,
      (k, d) ∈ [ ("AMP_NAME"%string, PNone); ("AMP_SERIAL"%string, PNone);
                 ("GLOBAL_TIME"%string, PFloat 60); ("NJOBS"%string, PInt 1) ] ->
      cfg !! k = None ->
      cfg' !! k = Some d /\ Log WARNING undefined_msg [PStr k; d] ∈ tr) /\
   (forall k v, cfg !! k = Some v -> cfg' !! k = Some v) /\
   tr = warning_of
          <$> List.filter (fun kd => negb (hasattr cfg kd.1)) optional_vars).
Proof.
  intros Hrun. destruct (cfg !! "DATA_PATH"%string) as [p|] eqn:Hp.
  - rewrite (check_config_present _ _ Hp) in Hrun.
    remember (set_optional optional_vars cfg) as r eqn:Hr.
    injection Hrun as Hc Ht Ho; subst cfg' tr o r.
    split; [split; discriminate|].
    intros _. split; [done|].
    assert (Htr : (set_optional optional_vars cfg).2
                  = warning_of <$> List.filter
                      (fun kd => negb (hasattr cfg kd.1)) optional_vars).
    { apply set_optional_trace. apply (bool_decide_unpack _). by vm_compute. }
    split; [|split; [|exact Htr]].
    + intros k d Hin Hk. split.
      * rewrite set_optional_lookup, Hk.
        repeat (apply elem_of_cons in Hin as [Hin|Hin];
                [injection Hin as -> ->; reflexivity|]).
        by apply elem_of_nil in Hin.
      * rewrite Htr. apply (list_elem_of_fmap_2 warning_of _ (k, d)).
        apply list_elem_of_In, filter_In. split.
        -- by apply list_elem_of_In.
        -- simpl. by rewrite (hasattr_None _ _ Hk).
    + intros k v Hk. by rewrite set_optional_lookup, Hk.
  - rewrite (check_config_missing _ Hp) in Hrun.
    injection Hrun as Hc Ht Ho; subst cfg' tr o. split; [done|]. by intros [? ?].
Qed.

Lemma check_config_spec_witness :
  check_config partial_cfg
  = (<["NJOBS"%string := PInt 1]>
       (<["AMP_SERIAL"%string := PNone]>
          (<["AMP_NAME"%string := PNone]> partial_cfg)),
     ([warning_of ("AMP_NAME"%string, PNone);
       warning_of ("AMP_SERIAL"%string, PNone);
       warning_of ("NJOBS"%string, PInt 1)], Ret tt)) /\
  (check_config partial_cfg).1 !! "GLOBAL_TIME"%string = Some (PFloat 0.2) /\
  (check_config partial_cfg).1 !! "NJOBS"%string = Some (PInt 1).
Proof.
  assert (Hrun : check_config partial_cfg
    = (<["NJOBS"%string := PInt 1]>
         (<["AMP_SERIAL"%string := PNone]>
            (<["AMP_NAME"%string := PNone]> partial_cfg)),
       ([warning_of ("AMP_NAME"%string, PNone);
         warning_of ("AMP_SERIAL"%string, PNone);
         warning_of ("NJOBS"%string, PInt 1)], Ret tt)))
    by (vm_compute; reflexivity).
  split; [exact Hrun|].
  destruct (check_config_spec _ _ _ _ Hrun) as [_ Hok].
  destruct Hok as (_ & Hdef & Hkeep & _); [by eexists; vm_compute|].
  rewrite Hrun. simpl fst. split.
  - apply Hkeep. vm_compute; reflexivity.
  - apply (Hdef "NJOBS"%string (PInt 1)); [|vm_compute; reflexivity].
    do 3 apply list_elem_of_further. apply list_elem_of_here.
Defined.

(** C10: when [DATA_PATH] is missing, [check_config] raises in its first
    loop: the module it leaves is the module it was given, and nothing
    but the ERROR message was logged. *)
Theorem check_config_atomic (cfg : gmap string pyval) :
  cfg !! "DATA_PATH"%string = None ->
  check_config cfg
  = (cfg, ([Log ERROR required_msg [PStr "DATA_PATH"]], Raise RuntimeError)).
Proof. apply check_config_missing. Qed.

Lemma check_config_atomic_witness :
  headless_cfg !! "DATA_PATH"%string = None /\
  check_config headless_cfg
  = (headless_cfg,
     ([Log ERROR required_msg [PStr "DATA_PATH"]], Raise RuntimeError)).
Proof.
  split; [vm_compute; reflexivity|].
  apply check_config_atomic. vm_compute; reflexivity.
Defined.

(** ** find_lsl_stream *)

(** C7, as the code has it: the scan is made exactly when the name and
    the serial are both [None]; as soon as one of them is given, both
    configured values are returned unchanged and no scan is made.  The
    scan is the call of [search_lsl] with [ignore_markers=True], and its
    result is returned as it is. *)
Theorem find_lsl_stream_spec (cfg : gmap string pyval)
    (found : pyval * pyval) (n s : pyval) :
  cfg !! "AMP_NAME"%string = Some n ->
  cfg !! "AMP_SERIAL"%string = Some s ->
  (n = PNone /\ s = PNone ->
   find_lsl_stream cfg found = ([SearchLsl true], Ret found)) /\
  (n <> PNone \/ s <> PNone ->
   find_lsl_stream cfg found = ([], Ret (n, s))).
Proof.
  intros Hn Hs. unfold find_lsl_stream, getattr. rewrite Hn, Hs. split.
  - intros [-> ->]. reflexivity.
  - intros Hgiven. destruct n; [destruct s; [|reflexivity..]|reflexivity..].
    by destruct Hgiven.
Qed.

Lemma find_lsl_stream_spec_witness :
  name_only_cfg !! "AMP_NAME"%string = Some (PStr "amp") /\
  name_only_cfg !! "AMP_SERIAL"%string = Some PNone /\
  find_lsl_stream name_only_cfg scanned = ([], Ret (PStr "amp", PNone)).
Proof.
  assert (Hn : name_only_cfg !! "AMP_NAME"%string = Some (PStr "amp"))
    by (vm_compute; reflexivity).
  assert (Hs : name_only_cfg !! "AMP_SERIAL"%string = Some PNone)
    by (vm_compute; reflexivity).
  split; [exact Hn|]. split; [exact Hs|].
  apply (find_lsl_stream_spec _ scanned _ _ Hn Hs). by left.
Defined.

(** C7 as the specification words it fails: a module that supplies the
    name but not the serial does not supply both, and yet no scan is
    made. *)
Lemma find_lsl_stream_no_scan_counterexample :
  ~ (forall n s,
       name_only_cfg !! "AMP_NAME"%string = Some n ->
       name_only_cfg !! "AMP_SERIAL"%string = Some s ->
       ~ (n <> PNone /\ s <> PNone) ->
       SearchLsl true ∈ (find_lsl_stream name_only_cfg scanned).1).
Proof.
  intros Hclaim.
  specialize (Hclaim (PStr "amp") PNone).
  assert (Hin : SearchLsl true ∈ (find_lsl_stream name_only_cfg scanned).1).
  { apply Hclaim; [vm_compute; reflexivity..|]. by intros [_ Hs]. }
  vm_compute in Hin. by apply elem_of_nil in Hin.
Qed.

(** ** The main loop *)

Lemma Qltb_lt (x y : Q) : Qltb x y = true <-> (x < y)%Q.
Proof.
  unfold Qltb. rewrite negb_true_iff, <- not_true_iff_false, Qle_bool_iff.
  split; [apply Qnot_le_lt | apply Qlt_not_le].
Qed.

Lemma Qltb_ge (x y : Q) : Qltb x y = false <-> (y <= x)%Q.
Proof. unfold Qltb. by rewrite negb_false_iff, Qle_bool_iff. Qed.

(** No index is returned exactly when no timestamp is above [last_ts]. *)
Lemma where_gt_nil (i : nat) (tslist : list Q) (l : Q) :
  where_gt i tslist l = [] <-> (forall t, t ∈ tslist -> ~ (l < t)%Q).
Proof.
  revert i. induction tslist as [|t0 ts IH]; intros i; simpl.
  - split; [|done]. intros _ t Ht. by apply elem_of_nil in Ht.
  - destruct (Qltb l t0) eqn:Hlt.
    + split; [done|]. intros H. exfalso. apply (H t0); [left|].
      by apply Qltb_lt.
    + rewrite IH. apply Qltb_ge in Hlt. split.
      * intros H t [->|Ht]%elem_of_cons; [by apply Qle_not_lt|by apply H].
      * intros H t Ht. apply H. by right.
Qed.

Lemma where_gt_cons (i : nat) (tslist : list Q) (l : Q) :
  where_gt i tslist l <> [] -> exists t, t ∈ tslist /\ (l < t)%Q.
Proof.
  revert i. induction tslist as [|t0 ts IH]; intros i; simpl; [done|].
  destruct (Qltb l t0) eqn:Hlt.
  - intros _. exists t0. split; [left|by apply Qltb_lt].
  - intros [t [Ht Hl]]%IH. exists t. split; [by right|done].
Qed.

Lemma length_zero_nil {A} (l : list A) : (length l =? 0)%nat = true <-> l = [].
Proof. destruct l; simpl; split; done. Qed.

Lemma main_loop_stop cfg g gate' clock stream ls :
  g <> 1 -> main_loop cfg (g :: gate') clock stream ls = ([], Ret tt).
Proof. intros Hg. simpl. by apply Z.eqb_neq in Hg as ->. Qed.

Section Running.

Variables (cfg : gmap string pyval) (global_time : pyval) (limit : Q).
Hypothesis Hglobal : cfg !! "GLOBAL_TIME"%string = Some global_time.
Hypothesis Hlimit : as_num global_time = Some limit.

Lemma main_loop_deadline gate' now clock' stream ls :
  (limit <= now)%Q ->
  main_loop cfg (1 :: gate') (now :: clock') stream ls = ([], Ret tt).
Proof.
  intros Hnow. simpl. unfold getattr. rewrite Hglobal. simpl.
  rewrite Hlimit. by apply Qltb_ge in Hnow as ->.
Qed.

Lemma main_loop_unbound gate' now clock' win stream' :
  (now < limit)%Q ->
  main_loop cfg (1 :: gate') (now :: clock') (win :: stream') None
  = ([Acquire], Raise (UnboundLocalError "last_ts")).
Proof.
  intros Hnow. simpl. unfold getattr. rewrite Hglobal. simpl.
  rewrite Hlimit. apply Qltb_lt in Hnow as ->. by destruct win.
Qed.

Lemma main_loop_stale gate' now clock' window tslist stream' l :
  (now < limit)%Q ->
  (forall t, t ∈ tslist -> ~ (l < t)%Q) ->
  main_loop cfg (1 :: gate') (now :: clock') ((window, tslist) :: stream')
            (Some l)
  = (stale_round ++ (main_loop cfg gate' clock' stream' (Some l)).1,
     (main_loop cfg gate' clock' stream' (Some l)).2).
Proof.
  intros Hnow Hstale. simpl. unfold getattr. rewrite Hglobal. simpl.
  rewrite Hlimit. apply Qltb_lt in Hnow as ->.
  apply where_gt_nil with (i := 0%nat) in Hstale. rewrite Hstale. simpl.
  by destruct (main_loop cfg gate' clock' stream' (Some l)) as [tr o].
Qed.

End Running.

(** Every way an execution of the main loop can go: it ends before any
    window is handed on, or its first iteration finds nothing new and the
    loop goes on with [last_ts] as it was, or its first iteration hands
    the window on, binds [last_ts] to the final timestamp, and paces. *)
Lemma main_loop_inv cfg gate clock stream ls tr o :
  main_loop cfg gate clock stream ls = (tr, o) ->
  (tr = [] \/ tr = [Acquire]) \/
  exists gate' now clock' window tslist stream' l,
    gate = 1 :: gate' /\ clock = now :: clock' /\
    stream = (window, tslist) :: stream' /\ ls = Some l /\
    (((forall t, t ∈ tslist -> ~ (l < t)%Q) /\
      exists tr', main_loop cfg gate' clock' stream' (Some l) = (tr', o) /\
                  tr = stale_round ++ tr')
     \/
     ((exists t, t ∈ tslist /\ (l < t)%Q) /\
      exists f, last tslist = Some f /\
        ((cfg !! "TIMER_SLEEP"%string = None /\
          o = Raise (AttributeError "TIMER_SLEEP") /\
          tr = [Acquire; Process (transpose window) tslist; AssignLastTs f])
         \/
         (exists interval tr',
            cfg !! "TIMER_SLEEP"%string = Some interval /\
            main_loop cfg gate' clock' stream' (Some f) = (tr', o) /\
            tr = [Acquire; Process (transpose window) tslist; AssignLastTs f;
                  SleepAtLeast interval] ++ tr')))).
Proof.
  destruct gate as [|g gate']; simpl; [intros [= <- <-]; by left; left|].
  destruct (g =? 1) eqn:Hg; [|intros [= <- <-]; by left; left].
  apply Z.eqb_eq in Hg as ->.
  destruct clock as [|now clock']; [intros [= <- <-]; by left; left|].
  unfold getattr.
  destruct (cfg !! "GLOBAL_TIME"%string) as [v|];
    [|intros [= <- <-]; by left; left].
  simpl. destruct (as_num v) as [limit|]; [|intros [= <- <-]; by left; left].
  destruct (Qltb now limit); [|intros [= <- <-]; by left; left].
  destruct stream as [|[window tslist] stream'];
    [intros [= <- <-]; by left; left|].
  destruct ls as [l|]; [|intros [= <- <-]; by left; right].
  simpl. destruct (length (where_gt 0 tslist l) =? 0)%nat eqn:Hnew.
  - apply length_zero_nil in Hnew.
    pose proof (proj1 (where_gt_nil _ _ _) Hnew) as Hstale. simpl.
    destruct (main_loop cfg gate' clock' stream' (Some l)) as [tr' o'] eqn:Hrec.
    intros [= <- <-]. right. exists gate', now, clock', window, tslist, stream', l.
    repeat (split; [done|]). left. split; [done|]. by exists tr'.
  - assert (Hne : where_gt 0 tslist l <> []).
    { intros H. apply length_zero_nil in H. congruence. }
    apply where_gt_cons in Hne as Hfresh. simpl.
    unfold final_ts. destruct (last tslist) as [f|] eqn:Hlast.
    + simpl. destruct (cfg !! "TIMER_SLEEP"%string) as [interval|] eqn:Hint.
      * simpl.
        destruct (main_loop cfg gate' clock' stream' (Some f))
          as [tr' o'] eqn:Hrec.
        intros [= <- <-]. right.
        exists gate', now, clock', window, tslist, stream', l.
        repeat (split; [done|]). right. split; [done|]. exists f.
        split; [done|]. right. by exists interval, tr'.
      * simpl. intros [= <- <-]. right.
        exists gate', now, clock', window, tslist, stream', l.
        repeat (split; [done|]). right. split; [done|]. exists f.
        split; [done|]. by left.
    + apply last_None in Hlast as ->. by destruct Hne.
Qed.

(** ** Accepted windows and [last_ts] *)

Lemma sorted_final (tslist : list Q) (f : Q) :
  Sorted Qle tslist -> last tslist = Some f ->
  forall t, t ∈ tslist -> (t <= f)%Q.
Proof.
  induction tslist as [|t0 ts IH]; intros Hs Hlast t Ht;
    [by apply elem_of_nil in Ht|].
  apply Sorted_inv in Hs as [Hs Hhd]. destruct ts as [|t1 ts].
  - injection Hlast as <-. apply list_elem_of_singleton in Ht as ->.
    apply Qle_refl.
  - rewrite last_cons_cons in Hlast.
    apply elem_of_cons in Ht as [->|Ht]; [|by apply IH].
    apply HdRel_inv in Hhd. apply Qle_trans with t1; [done|].
    apply IH; [done..|left].
Qed.

Lemma process_split front pre w ts post rest :
  processed front = [] ->
  pre ++ Process w ts :: post = front ++ rest ->
  exists pre', pre = front ++ pre' /\ rest = pre' ++ Process w ts :: post.
Proof.
  revert pre. induction front as [|e front IH]; intros pre Hfront Heq.
  - by exists pre.
  - destruct pre as [|e' pre]; simpl in Heq.
    + injection Heq as <- _. discriminate Hfront.
    + injection Heq as -> Heq.
      assert (Hfront' : processed front = []).
      { unfold processed in *. simpl in Hfront. by destruct e. }
      destruct (IH pre Hfront' Heq) as (pre' & -> & ->). by exists pre'.
Qed.

Lemma process_first front pre w ts post w0 ts0 rest :
  processed front = [] ->
  pre ++ Process w ts :: post = front ++ Process w0 ts0 :: rest ->
  (pre = front /\ w = w0 /\ ts = ts0 /\ post = rest) \/
  exists pre', pre = front ++ Process w0 ts0 :: pre' /\
               rest = pre' ++ Process w ts :: post.
Proof.
  intros Hfront Heq.
  destruct (process_split _ _ _ _ _ _ Hfront Heq) as (pre' & -> & Hrest).
  destruct pre' as [|e pre']; simpl in Hrest.
  - injection Hrest as <- <- <-. left. by rewrite app_nil_r.
  - injection Hrest as <- ->. right. by exists pre'.
Qed.

Lemma last_ts_after_unassigned ls front tr :
  assigned front = [] -> last_ts_after ls (front ++ tr) = last_ts_after ls tr.
Proof.
  intros H. unfold last_ts_after, assigned in *. by rewrite omap_app, H.
Qed.

Lemma last_ts_after_assigned ls front t tr :
  assigned front = [t] ->
  last_ts_after ls (front ++ tr) = last_ts_after (Some t) tr.
Proof.
  intros H. unfold last_ts_after, assigned in *. rewrite omap_app, H. simpl.
  rewrite last_cons. by destruct (last _).
Qed.

(** C3: in every execution of the main loop over windows whose
    timestamps are non-decreasing (the contract of the stream), from any
    value of [last_ts], the values [last_ts] takes are non-decreasing;
    a window is handed to the per-window processing only when [last_ts]
    is bound and one of the window's timestamps is strictly above it;
    and the next thing that happens is the assignment of the window's
    final timestamp to [last_ts]. *)
Theorem last_ts_monotone (cfg : gmap string pyval) (gate : list Z)
    (clock : list Q) (stream : list (matrix * list Q)) (ls : option Q)
    (tr : list event) (o : outcome unit) :
  Forall (fun win => Sorted Qle win.2) stream ->
  main_loop cfg gate clock stream ls = (tr, o) ->
  Sorted Qle (option_list ls ++ assigned tr) /\
  (forall pre window tslist post,
     tr = pre ++ Process window tslist :: post ->
     exists p f post',
       last_ts_after ls pre = Some p /\
       (exists t, t ∈ tslist /\ (p < t)%Q) /\
       last tslist = Some f /\
       post = AssignLastTs f :: post' /\
       last_ts_after ls (pre ++ [Process window tslist; AssignLastTs f])
       = Some f).
Proof.
  revert clock stream ls tr o.
  induction gate as [|g gate IH]; intros clock stream ls tr o Hsorted Hrun.
  { injection Hrun as <- <-. split.
    - rewrite app_nil_r. destruct ls; simpl; by repeat constructor.
    - intros [|??] ???; discriminate. }
  apply main_loop_inv in Hrun as [[-> | ->] | Hstep].
  - split.
    + rewrite app_nil_r. destruct ls; simpl; by repeat constructor.
    + intros [|??] ???; discriminate.
  - split.
    + rewrite app_nil_r. destruct ls; simpl; by repeat constructor.
    + intros [|?[|??]] ???; discriminate.
  - destruct Hstep as (gate' & now & clock' & window & tslist & stream' & l
                       & [= -> ->] & -> & -> & -> & Hstep).
    apply Forall_cons in Hsorted as [Hts Hsorted]. simpl in Hts.
    destruct Hstep as [(Hstale & tr' & Hrec & ->)
                      | (Hfresh & f & Hlast & Hrest)].
    + destruct (IH _ _ _ _ _ Hsorted Hrec) as [IHs IHp]. split; [done|].
      intros pre w ts post Heq. symmetry in Heq.
      apply process_split in Heq as (pre' & -> & Heq); [|done].
      destruct (IHp _ _ _ _ Heq) as (p & f & post' & Hp & Ht & Hf & -> & Hl).
      exists p, f, post'. rewrite <- app_assoc.
      by rewrite !(last_ts_after_unassigned _ stale_round) by done.
    + assert (Hlf : (l <= f)%Q).
      { destruct Hfresh as (t & Ht & Hlt). apply Qlt_le_weak.
        apply Qlt_le_trans with t; [done|]. by apply (sorted_final tslist). }
      destruct Hrest as [(_ & -> & ->) | (interval & tr' & _ & Hrec & ->)].
      * split; [simpl; by repeat constructor|].
        intros pre w ts post Heq. symmetry in Heq.
        apply (process_first [Acquire]) in Heq
          as [(-> & -> & -> & ->) | (pre' & -> & Heq)]; [| |done].
        -- exists l, f, []. by repeat split.
        -- destruct pre' as [|?[|??]]; discriminate.
      * destruct (IH _ _ _ _ _ Hsorted Hrec) as [IHs IHp]. split.
        { simpl in *. constructor; [done|]. by constructor. }
        intros pre w ts post Heq. symmetry in Heq.
        apply (process_first [Acquire]) in Heq
          as [(-> & -> & -> & ->) | (pre' & -> & Heq)]; [| |done].
        -- exists l, f, (SleepAtLeast interval :: tr'). by repeat split.
        -- symmetry in Heq.
           apply (process_split [AssignLastTs f; SleepAtLeast interval])
             in Heq as (pre'' & -> & Heq); [|done].
           destruct (IHp _ _ _ _ Heq)
             as (p & f' & post' & Hp & Ht & Hf & -> & Hl).
           exists p, f', post'.
           assert (Hfront : forall tl,
             last_ts_after (Some l)
               (Acquire :: Process (transpose window) tslist
                  :: AssignLastTs f :: SleepAtLeast interval :: tl)
             = last_ts_after (Some f) tl).
           { intros tl.
             by apply (last_ts_after_assigned _
               [Acquire; Process (transpose window) tslist;
                AssignLastTs f; SleepAtLeast interval] f). }
           cbn [app]. by rewrite !Hfront.
Qed.

Lemma last_ts_monotone_witness :
  Forall (fun win => Sorted Qle win.2) fresh_stream /\
  main_loop session_cfg [1; 1; 1; 0] session_clock fresh_stream (Some 0%Q)
  = ([ Acquire; Process [[11; 21]; [12; 22]]%Q [1; 2]%Q; AssignLastTs 2;
       SleepAtLeast (PFloat 0.05);
       Acquire; Process [[21; 31]; [22; 32]]%Q [2; 3]%Q; AssignLastTs 3;
       SleepAtLeast (PFloat 0.05);
       Acquire; Process [[31; 41]; [32; 42]]%Q [3; 4]%Q; AssignLastTs 4;
       SleepAtLeast (PFloat 0.05) ], Ret tt) /\
  Sorted Qle [0; 2; 3; 4]%Q.
Proof.
  assert (Hsorted : Forall (fun win => Sorted Qle win.2) fresh_stream).
  { repeat constructor; by vm_compute. }
  assert (Hrun :
    main_loop session_cfg [1; 1; 1; 0] session_clock fresh_stream (Some 0%Q)
    = ([ Acquire; Process [[11; 21]; [12; 22]]%Q [1; 2]%Q; AssignLastTs 2;
         SleepAtLeast (PFloat 0.05);
         Acquire; Process [[21; 31]; [22; 32]]%Q [2; 3]%Q; AssignLastTs 3;
         SleepAtLeast (PFloat 0.05);
         Acquire; Process [[31; 41]; [32; 42]]%Q [3; 4]%Q; AssignLastTs 4;
         SleepAtLeast (PFloat 0.05) ], Ret tt))
    by (vm_compute; reflexivity).
  split; [exact Hsorted|]. split; [exact Hrun|].
  exact (proj1 (last_ts_monotone _ _ _ _ _ _ _ Hsorted Hrun)).
Defined.

(** ** Iterations without new data *)

Lemma stale_rounds_observed (n : nat) (ls : option Q) :
  processed (stale_rounds n) = [] /\
  length (logged WARNING (stale_rounds n)) = n /\
  logged ERROR (stale_rounds n) = [] /\
  slept (stale_rounds n) = replicate n 1 /\
  assigned (stale_rounds n) = [] /\
  paced (stale_rounds n) = [] /\
  last_ts_after ls (stale_rounds n) = ls.
Proof.
  induction n as [|n (Hp & Hw & He & Hs & Ha & Hi & Hl)]; [done|].
  unfold last_ts_after in *. simpl. unfold processed, logged, slept, assigned,
    paced in *. simpl. rewrite Hp, Hw, He, Hs, Ha, Hi. by rewrite Ha in Hl.
Qed.

(** The loop body as it is written, had [last_ts] been bound on entry:
    [n] iterations in a row whose windows hold no timestamp strictly
    above [last_ts] hand no window to the per-window processing, log
    exactly [n] warnings, sleep one second each, never call the pacer,
    and leave [last_ts] as it was.  [run] never enters the loop in such
    a state. *)
Theorem no_progress (cfg : gmap string pyval) (global_time : pyval)
    (limit : Q) (gate' : list Z) (nows clock' : list Q)
    (wins stream' : list (matrix * list Q)) (l : Q) :
  cfg !! "GLOBAL_TIME"%string = Some global_time ->
  as_num global_time = Some limit ->
  length nows = length wins ->
  Forall (fun now => (now < limit)%Q) nows ->
  Forall (fun win => forall t, t ∈ win.2 -> ~ (l < t)%Q) wins ->
  let n := length wins in
  let rest := main_loop cfg gate' clock' stream' (Some l) in
  main_loop cfg (replicate n 1 ++ gate') (nows ++ clock') (wins ++ stream')
            (Some l)
  = (stale_rounds n ++ rest.1, rest.2) /\
  processed (stale_rounds n) = [] /\
  length (logged WARNING (stale_rounds n)) = n /\
  slept (stale_rounds n) = replicate n 1 /\
  assigned (stale_rounds n) = [] /\
  paced (stale_rounds n) = [] /\
  last_ts_after (Some l) (stale_rounds n) = Some l.
Proof.
  intros Hglobal Hlimit Hlen Hnows Hwins n rest.
  destruct (stale_rounds_observed n (Some l))
    as (Hp & Hw & _ & Hs & Ha & Hi & Hl).
  split; [|done]. subst n rest. clear Hp Hw Hs Ha Hi Hl.
  revert nows Hlen Hnows.
  induction Hwins as [|[window tslist] wins Hstale Hwins IH];
    intros nows Hlen Hnows.
  - destruct nows; [|done]. simpl.
    by destruct (main_loop cfg gate' clock' stream' (Some l)).
  - destruct nows as [|now nows]; [done|].
    apply Forall_cons in Hnows as [Hnow Hnows]. injection Hlen as Hlen.
    cbn [length replicate app stale_rounds].
    rewrite (main_loop_stale cfg global_time limit Hglobal Hlimit); [|done..].
    rewrite (IH nows Hlen Hnows). cbn [fst snd]. by rewrite app_assoc.
Qed.

Lemma no_progress_witness :
  main_loop session_cfg [1; 1; 1; 0] session_clock stale_stream (Some 2%Q)
  = (stale_rounds 3, Ret tt) /\
  length (logged WARNING (stale_rounds 3)) = 3%nat /\
  processed (stale_rounds 3) = [].
Proof.
  destruct (no_progress session_cfg (PFloat 0.2) 0.2%Q [0]
              [0; 0.05; 0.1]%Q [0.15; 0.2; 0.25]%Q stale_stream [] 2%Q)
    as (Hrun & Hp & Hw & _).
  - vm_compute; reflexivity.
  - reflexivity.
  - reflexivity.
  - repeat constructor; by vm_compute.
  - repeat constructor; simpl; intros t Ht;
      repeat (apply elem_of_cons in Ht as [->|Ht]; [by vm_compute|]);
      by apply elem_of_nil in Ht.
  - split; [|by split]. rewrite app_nil_r in Hrun.
    etransitivity; [exact Hrun|]. vm_compute; reflexivity.
Defined.

(** C6, on the code: in a session whose stream gives the same window at
    every call, so that no window after the first holds a timestamp
    above the first one's, [run] logs no warning and never sleeps.  The
    first iteration acquires its window and the comparison with the
    unbound [last_ts] raises [UnboundLocalError]; the exit status
    is 1. *)
Theorem no_progress_on_run :
  run session_cfg stale_session
  = ([RedirectStdout INFO;
      Connect (PInt 1) (PInt 1) (PStr "0001") false (PStr "amp");
      GetSampleRate; GetTriggerChannel; NewTimer false; NewTimer true;
      Acquire],
     Raise (UnboundLocalError "last_ts")) /\
  logged WARNING (run session_cfg stale_session).1 = [] /\
  slept (run session_cfg stale_session).1 = [] /\
  acquired (run session_cfg stale_session).1 = 1%nat /\
  exit_status (run session_cfg stale_session).2 = Some 1.
Proof. repeat split; vm_compute; reflexivity. Qed.

(** ** The start-up gate *)

Lemma await_start_wait (k : nat) (rest : list Z) :
  await_start (replicate k 2 ++ rest) = await_start rest.
Proof. induction k as [|k IH]; [done|]. simpl. exact IH. Qed.

Lemma await_start_first (g : Z) (rest : list Z) :
  g <> 2 -> await_start (g :: rest) = Some rest.
Proof. intros Hg. simpl. by apply Z.eqb_neq in Hg as ->. Qed.

Lemma find_lsl_stream_eq cfg found n s :
  cfg !! "AMP_NAME"%string = Some n ->
  cfg !! "AMP_SERIAL"%string = Some s ->
  find_lsl_stream cfg found
  = if is_none n && is_none s then ([SearchLsl true], Ret found)
    else ([], Ret (n, s)).
Proof.
  intros Hn Hs. unfold find_lsl_stream, getattr. rewrite Hn, Hs.
  by destruct n, s.
Qed.

Section Armed.

Variables (cfg : gmap string pyval) (n s ws bs : pyval).
Hypothesis Hname : cfg !! "AMP_NAME"%string = Some n.
Hypothesis Hserial : cfg !! "AMP_SERIAL"%string = Some s.
Hypothesis Hwindow : cfg !! "WINDOWSIZE"%string = Some ws.
Hypothesis Hbuffer : cfg !! "STREAMBUFFER"%string = Some bs.

(** Once the wait is over and the gate does not read 0, the stream is
    located and connected, the two timers are made, and the main loop
    starts on what is left of the gate, with [last_ts] unbound. *)
Lemma run_armed k g0 g1 gate' readings windows scan_result :
  g0 <> 2 -> g1 <> 0 ->
  let amp := if is_none n && is_none s then scan_result else (n, s) in
  let scan := if is_none n && is_none s then [SearchLsl true] else [] in
  let loop := main_loop cfg gate' readings windows None in
  run cfg (World (replicate k 2 ++ g0 :: g1 :: gate') readings windows
                 scan_result)
  = (RedirectStdout INFO :: scan
       ++ [Connect ws bs amp.2 false amp.1; GetSampleRate; GetTriggerChannel;
           NewTimer false; NewTimer true]
       ++ loop.1,
     loop.2).
Proof.
  intros Hg0 Hg1. unfold run. cbn [gate clock stream found].
  rewrite await_start_wait, (await_start_first _ _ Hg0).
  apply Z.eqb_neq in Hg1. rewrite Hg1.
  rewrite (find_lsl_stream_eq _ _ _ _ Hname Hserial).
  unfold connect_lsl_stream, getattr. rewrite Hwindow, Hbuffer.
  destruct (main_loop cfg gate' readings windows None) as [tr o].
  by destruct (is_none n && is_none s).
Qed.

End Armed.

Lemma run_waiting cfg k clock stream found :
  run cfg (World (replicate k 2) clock stream found)
  = ([RedirectStdout INFO], Pending).
Proof.
  unfold run. cbn [gate]. rewrite <- (app_nil_r (replicate k 2)).
  by rewrite await_start_wait.
Qed.

Lemma run_unarmed cfg k g0 rest clock stream found :
  g0 <> 2 ->
  run cfg (World (replicate k 2 ++ g0 :: 0 :: rest) clock stream found)
  = ([RedirectStdout INFO], Raise (SystemExit (-1))).
Proof.
  intros Hg0. unfold run. cbn [gate].
  by rewrite await_start_wait, (await_start_first _ _ Hg0).
Qed.

(** C4: [run] stays in its wait as long as the gate reads 2, without
    any effect of its own.  When the wait is over and the gate then
    reads 0, [run] exits with [sys.exit(-1)]: a non-zero exit status, and
    no window was handed to the per-window processing.  When the gate
    then reads 1, the stream is located and connected and the main loop
    is entered. *)
Theorem await_start_spec (cfg : gmap string pyval) (k : nat) (g0 : Z)
    (rest : list Z) (readings : list Q) (windows : list (matrix * list Q))
    (scan_result : pyval * pyval) :
  g0 <> 2 ->
  (* the gate reads 2 at every read so far: still waiting *)
  run cfg (World (replicate k 2) readings windows scan_result)
  = ([RedirectStdout INFO], Pending) /\
  (* the reads of 2 change nothing to what follows *)
  run cfg (World (replicate k 2 ++ g0 :: rest) readings windows scan_result)
  = run cfg (World (g0 :: rest) readings windows scan_result) /\
  (* Stop at the check *)
  (let r := run cfg (World (replicate k 2 ++ g0 :: 0 :: rest) readings
                           windows scan_result) in
   r = ([RedirectStdout INFO], Raise (SystemExit (-1))) /\
   exit_status r.2 = Some 255 /\
   processed r.1 = []) /\
  (* Run at the check, in a module that has the four names read there *)
  (forall n s ws bs,
     cfg !! "AMP_NAME"%string = Some n ->
     cfg !! "AMP_SERIAL"%string = Some s ->
     cfg !! "WINDOWSIZE"%string = Some ws ->
     cfg !! "STREAMBUFFER"%string = Some bs ->
     let amp := if is_none n && is_none s then scan_result else (n, s) in
     let scan := if is_none n && is_none s then [SearchLsl true] else [] in
     let loop := main_loop cfg rest readings windows None in
     run cfg (World (replicate k 2 ++ g0 :: 1 :: rest) readings windows
                    scan_result)
     = (RedirectStdout INFO :: scan
          ++ [Connect ws bs amp.2 false amp.1; GetSampleRate;
              GetTriggerChannel; NewTimer false; NewTimer true]
          ++ loop.1,
        loop.2)).
Proof.
  intros Hg0. split; [apply run_waiting|]. split.
  { unfold run. cbn [gate]. by rewrite await_start_wait. }
  split.
  - cbn zeta. by rewrite (run_unarmed _ _ _ _ _ _ _ Hg0).
  - intros n s ws bs Hn Hs Hws Hbs.
    by apply (run_armed cfg n s ws bs Hn Hs Hws Hbs).
Qed.

Lemma await_start_spec_witness :
  run session_cfg (World [2; 2; 2; 0; 0; 1] session_clock fresh_stream scanned)
  = ([RedirectStdout INFO], Raise (SystemExit (-1))) /\
  exit_status (Raise (SystemExit (-1)) : outcome unit) = Some 255.
Proof.
  destruct (await_start_spec session_cfg 3 0 [1] session_clock fresh_stream
              scanned) as (_ & _ & (Hrun & Hexit & _) & _); [done|].
  split; [exact Hrun|]. by rewrite Hrun in Hexit.
Defined.

(** ** Leaving the main loop *)

(** C5: every test of the loop condition reads the gate and, when the
    gate reads 1, the global timer.  If the gate reads 0, or the timer
    has reached [GLOBAL_TIME], the loop ends there, before any window is
    acquired; [run] then returns and the exit status is 0. *)
Theorem main_loop_exit (cfg : gmap string pyval) (global_time : pyval)
    (limit : Q) (gate' : list Z) (now : Q) (clock' : list Q)
    (windows : list (matrix * list Q)) (ls : option Q) :
  cfg !! "GLOBAL_TIME"%string = Some global_time ->
  as_num global_time = Some limit ->
  main_loop cfg (0 :: gate') (now :: clock') windows ls = ([], Ret tt) /\
  ((limit <= now)%Q ->
   main_loop cfg (1 :: gate') (now :: clock') windows ls = ([], Ret tt)) /\
  exit_status (Ret tt : outcome unit) = Some 0 /\
  (forall n s ws bs k g0 g1 g scan_result,
     cfg !! "AMP_NAME"%string = Some n ->
     cfg !! "AMP_SERIAL"%string = Some s ->
     cfg !! "WINDOWSIZE"%string = Some ws ->
     cfg !! "STREAMBUFFER"%string = Some bs ->
     g0 <> 2 -> g1 <> 0 ->
     g = 0 \/ (g = 1 /\ (limit <= now)%Q) ->
     let r := run cfg (World (replicate k 2 ++ g0 :: g1 :: g :: gate')
                             (now :: clock') windows scan_result) in
     r.2 = Ret tt /\ exit_status r.2 = Some 0 /\ Acquire ∉ r.1).
Proof.
  intros Hglobal Hlimit.
  assert (Hstop : main_loop cfg (0 :: gate') (now :: clock') windows ls
                  = ([], Ret tt)) by by apply main_loop_stop.
  assert (Hdead : (limit <= now)%Q ->
                  main_loop cfg (1 :: gate') (now :: clock') windows ls
                  = ([], Ret tt))
    by apply (main_loop_deadline cfg global_time limit Hglobal Hlimit).
  split; [done|]. split; [done|]. split; [done|].
  intros n s ws bs k g0 g1 g scan_result Hn Hs Hws Hbs Hg0 Hg1 Hg r.
  subst r. rewrite (run_armed cfg n s ws bs Hn Hs Hws Hbs _ _ _ _ _ _ _ Hg0 Hg1).
  assert (Hloop : main_loop cfg (g :: gate') (now :: clock') windows None
                  = ([], Ret tt)).
  { destruct Hg as [-> | [-> Hnow]].
    - by apply main_loop_stop.
    - by apply (main_loop_deadline cfg global_time limit Hglobal Hlimit). }
  rewrite Hloop. cbn [fst snd]. split; [done|]. split; [done|].
  rewrite app_nil_r. intros Hin.
  apply elem_of_cons in Hin as [Hin|Hin]; [done|].
  apply elem_of_app in Hin as [Hin|Hin].
  - destruct (is_none n && is_none s).
    + by apply list_elem_of_singleton in Hin.
    + by apply elem_of_nil in Hin.
  - repeat (apply elem_of_cons in Hin as [Hin|Hin]; [done|]).
    by apply elem_of_nil in Hin.
Qed.

Lemma main_loop_exit_witness :
  main_loop session_cfg [1; 1] [0.2; 0.25]%Q fresh_stream (Some 4%Q)
  = ([], Ret tt).
Proof.
  refine (proj1 (proj2 (main_loop_exit session_cfg (PFloat 0.2) 0.2%Q [1]
                          0.2%Q [0.25%Q] fresh_stream (Some 4%Q) _ _)) _).
  - vm_compute; reflexivity.
  - reflexivity.
  - by vm_compute.
Defined.

(** C9: the loop goes through a further iteration only when the gate
    reads exactly 1.  A gate that reads 2 at a test of the loop condition
    ends the loop as one that reads 0 does: [run] returns, with exit
    status 0, whatever the gate reads afterwards. *)
Theorem main_loop_only_run (cfg : gmap string pyval) (gate' : list Z)
    (readings : list Q) (windows : list (matrix * list Q))
    (ls : option Q) :
  main_loop cfg (2 :: gate') readings windows ls = ([], Ret tt) /\
  main_loop cfg (2 :: gate') readings windows ls
  = main_loop cfg (0 :: gate') readings windows ls /\
  exit_status (main_loop cfg (2 :: gate') readings windows ls).2 = Some 0 /\
  (forall g tr o,
     main_loop cfg (g :: gate') readings windows ls = (tr, o) ->
     tr <> [] -> g = 1).
Proof.
  assert (H2 : main_loop cfg (2 :: gate') readings windows ls = ([], Ret tt))
    by by apply main_loop_stop.
  split; [done|]. split; [by rewrite H2, main_loop_stop|].
  split; [by rewrite H2|].
  intros g tr o Hrun Htr. destruct (decide (g = 1)) as [|Hg]; [done|].
  rewrite (main_loop_stop _ _ _ _ _ _ Hg) in Hrun. by injection Hrun as <- _.
Qed.

Lemma main_loop_only_run_witness :
  main_loop session_cfg [2; 1; 1; 1] session_clock fresh_stream (Some 0%Q)
  = ([], Ret tt).
Proof.
  exact (proj1 (main_loop_only_run session_cfg [1; 1; 1] session_clock
                  fresh_stream (Some 0%Q))).
Defined.

(** ** The first iteration *)

(** C1: [run] enters the main loop with [last_ts] unbound.  In every
    run that gets there with the gate at 1 and the global timer below
    [GLOBAL_TIME], the first iteration acquires its window and the
    comparison with [last_ts] raises [UnboundLocalError]: no window is
    ever handed to the per-window processing and the exit status is 1. *)
Theorem first_iteration_unbound (cfg : gmap string pyval)
    (global_time n s ws bs : pyval) (limit : Q) (k : nat) (g0 g1 : Z)
    (gate' : list Z) (now : Q) (clock' : list Q) (win : matrix * list Q)
    (stream' : list (matrix * list Q)) (scan_result : pyval * pyval) :
  cfg !! "GLOBAL_TIME"%string = Some global_time ->
  as_num global_time = Some limit ->
  cfg !! "AMP_NAME"%string = Some n ->
  cfg !! "AMP_SERIAL"%string = Some s ->
  cfg !! "WINDOWSIZE"%string = Some ws ->
  cfg !! "STREAMBUFFER"%string = Some bs ->
  g0 <> 2 -> g1 <> 0 ->
  (now < limit)%Q ->
  main_loop cfg (1 :: gate') (now :: clock') (win :: stream') None
  = ([Acquire], Raise (UnboundLocalError "last_ts")) /\
  (let amp := if is_none n && is_none s then scan_result else (n, s) in
   let scan := if is_none n && is_none s then [SearchLsl true] else [] in
   let r := run cfg (World (replicate k 2 ++ g0 :: g1 :: 1 :: gate')
                           (now :: clock') (win :: stream') scan_result) in
   r = (RedirectStdout INFO :: scan
          ++ [Connect ws bs amp.2 false amp.1; GetSampleRate;
              GetTriggerChannel; NewTimer false; NewTimer true; Acquire],
        Raise (UnboundLocalError "last_ts")) /\
   processed r.1 = [] /\
   assigned r.1 = [] /\
   exit_status r.2 = Some 1).
Proof.
  intros Hglobal Hlimit Hn Hs Hws Hbs Hg0 Hg1 Hnow.
  pose proof (main_loop_unbound cfg global_time limit Hglobal Hlimit
                gate' now clock' win stream' Hnow) as Hloop.
  split; [exact Hloop|]. cbn zeta.
  rewrite (run_armed cfg n s ws bs Hn Hs Hws Hbs _ _ _ _ _ _ _ Hg0 Hg1).
  rewrite Hloop. cbn [fst snd].
  split; [done|]. split; [|split; [|done]];
    by destruct (is_none n && is_none s).
Qed.

Lemma first_iteration_unbound_witness :
  run session_cfg session
  = ([RedirectStdout INFO;
      Connect (PInt 1) (PInt 1) (PStr "0001") false (PStr "amp");
      GetSampleRate; GetTriggerChannel; NewTimer false; NewTimer true;
      Acquire],
     Raise (UnboundLocalError "last_ts")).
Proof.
  destruct (first_iteration_unbound session_cfg (PFloat 0.2) (PStr "amp")
              (PStr "0001") (PInt 1) (PInt 1) 0.2%Q 0 1 1 [1; 1; 1; 1; 1]
              0%Q [0.05; 0.1; 0.15; 0.2; 0.25]%Q
              ([[11; 12]; [21; 22]], [1; 2])%Q
              (tail fresh_stream) scanned)
    as (_ & Hrun & _);
    [vm_compute; reflexivity|reflexivity|vm_compute; reflexivity..
    |done|done|by vm_compute|].
  exact Hrun.
Defined.

(** With [last_ts] bound on entry, the same session runs as the loop is
    written to run: four windows handed on, one per 0.05 of session
    time, and a normal end at the deadline. *)
Lemma main_loop_with_bound_last_ts :
  let r := main_loop session_cfg [1; 1; 1; 1; 1; 1] session_clock
                     fresh_stream (Some 0%Q) in
  length (processed r.1) = 4%nat /\
  assigned r.1 = [2; 3; 4; 5]%Q /\
  r.2 = Ret tt.
Proof. repeat split; vm_compute; reflexivity. Qed.

(** C2, on the code: in the end-to-end scenario (global time 0.2,
    minimum interval 0.05, gate at 1 at every read, strictly increasing
    timestamps) the session does not run to its deadline.  The first
    iteration raises [UnboundLocalError]; no window is handed to the
    per-window processing and the exit status is 1. *)
Theorem end_to_end_scenario :
  batch_run session_cfg session
  = ([RedirectStdout INFO;
      Connect (PInt 1) (PInt 1) (PStr "0001") false (PStr "amp");
      GetSampleRate; GetTriggerChannel; NewTimer false; NewTimer true;
      Acquire],
     Raise (UnboundLocalError "last_ts")) /\
  length (processed (batch_run session_cfg session).1) = 0%nat /\
  exit_status (batch_run session_cfg session).2 = Some 1.
Proof. split; [|split]; vm_compute; reflexivity. Qed.

(** * Further properties *)

(** ** check_config, again *)

Lemma set_optional_noop opts (cfg : gmap string pyval) :
  (forall k d, (k, d) ∈ opts -> is_Some (cfg !! k)) ->
  set_optional opts cfg = (cfg, []).
Proof.
  induction opts as [|[k d] opts IH]; intros Hall; [done|]. simpl.
  destruct (Hall k d) as [v Hv]; [left|].
  rewrite (hasattr_Some _ _ _ Hv). apply IH.
  intros k' d' Hin. apply (Hall k' d'). by right.
Qed.

Lemma set_optional_defines opts (cfg : gmap string pyval) k d :
  (k, d) ∈ opts -> is_Some ((set_optional opts cfg).1 !! k).
Proof.
  intros Hin. rewrite set_optional_lookup.
  destruct (cfg !! k) as [v|]; [by exists v|].
  apply not_eq_None_Some. intros Hnone%not_elem_of_list_to_map.
  apply Hnone. by apply (list_elem_of_fmap_2 fst _ (k, d)).
Qed.

Lemma check_config_ok_inv (cfg cfg' : gmap string pyval) tr :
  check_config cfg = (cfg', (tr, Ret tt)) ->
  is_Some (cfg !! "DATA_PATH"%string) /\
  cfg' = (set_optional optional_vars cfg).1 /\
  tr = (set_optional optional_vars cfg).2.
Proof.
  intros Hrun. destruct (cfg !! "DATA_PATH"%string) as [p|] eqn:Hp.
  - rewrite (check_config_present _ _ Hp) in Hrun.
    remember (set_optional optional_vars cfg) as r eqn:Hr.
    injection Hrun as Hc Ht. by subst cfg' tr.
  - rewrite (check_config_missing _ Hp) in Hrun. discriminate Hrun.
Qed.

(** A module that passed [check_config] passes it again unchanged and
    without a single log message. *)
Theorem check_config_idempotent (cfg cfg' : gmap string pyval)
    (tr : list event) :
  check_config cfg = (cfg', (tr, Ret tt)) ->
  check_config cfg' = (cfg', ([], Ret tt)).
Proof.
  intros (Hp & -> & _)%check_config_ok_inv.
  destruct Hp as [p Hp].
  assert (Hp' : (set_optional optional_vars cfg).1 !! "DATA_PATH"%string
                = Some p) by by rewrite set_optional_lookup, Hp.
  rewrite (check_config_present _ _ Hp').
  rewrite set_optional_noop; [done|].
  intros k d Hin. by apply (set_optional_defines _ _ k d).
Qed.

Lemma check_config_idempotent_witness :
  check_config (check_config partial_cfg).1
  = ((check_config partial_cfg).1, ([], Ret tt)).
Proof.
  apply (check_config_idempotent partial_cfg _
           (check_config partial_cfg).2.1).
  vm_compute; reflexivity.
Defined.

(** The names of a module that passed [check_config] are the names it
    had and the four optional names: nothing else is added, nothing is
    removed. *)
Theorem check_config_names (cfg cfg' : gmap string pyval)
    (tr : list event) :
  check_config cfg = (cfg', (tr, Ret tt)) ->
  dom cfg' = dom cfg ∪ {[ "AMP_NAME"; "AMP_SERIAL"; "GLOBAL_TIME";
                           "NJOBS" ]}%string.
Proof.
  intros (_ & -> & _)%check_config_ok_inv.
  apply set_eq. intros k. rewrite elem_of_union, !elem_of_dom.
  rewrite set_optional_lookup. destruct (cfg !! k) as [v|] eqn:Hk.
  - split; [left|]; by exists v.
  - split.
    + intros Hsome. right.
      apply not_eq_None_Some in Hsome.
      rewrite <- not_elem_of_list_to_map in Hsome.
      apply dec_stable in Hsome. simpl in Hsome.
      rewrite !elem_of_cons, elem_of_nil in Hsome.
      rewrite !elem_of_union, !elem_of_singleton. tauto.
    + intros [[? [=]] | Hin]. apply not_eq_None_Some.
      rewrite <- not_elem_of_list_to_map. simpl. intros Hnot. apply Hnot.
      rewrite !elem_of_union, !elem_of_singleton in Hin.
      rewrite !elem_of_cons, elem_of_nil. tauto.
Qed.

Lemma check_config_names_witness :
  dom (check_config partial_cfg).1
  = dom partial_cfg ∪ {[ "AMP_NAME"; "AMP_SERIAL"; "GLOBAL_TIME";
                          "NJOBS" ]}%string.
Proof.
  apply (check_config_names partial_cfg _ (check_config partial_cfg).2.1).
  vm_compute; reflexivity.
Defined.

(** ** The locator on incomplete and on checked modules *)

(** A module that lacks [AMP_NAME], or has it and lacks [AMP_SERIAL],
    makes the locator raise [AttributeError] on that name, whatever the
    other value is, and no scan is made. *)
Theorem find_lsl_stream_missing (cfg : gmap string pyval)
    (scan_result : pyval * pyval) :
  (cfg !! "AMP_NAME"%string = None ->
   find_lsl_stream cfg scan_result = ([], Raise (AttributeError "AMP_NAME")))
  /\
  (is_Some (cfg !! "AMP_NAME"%string) ->
   cfg !! "AMP_SERIAL"%string = None ->
   find_lsl_stream cfg scan_result
   = ([], Raise (AttributeError "AMP_SERIAL"))).
Proof.
  unfold find_lsl_stream, getattr. split.
  - by intros ->.
  - intros [n ->] ->. by destruct n.
Qed.

Lemma find_lsl_stream_missing_witness :
  find_lsl_stream headless_cfg scanned
  = ([], Raise (AttributeError "AMP_SERIAL")).
Proof.
  apply (find_lsl_stream_missing headless_cfg scanned).
  - by eexists; vm_compute.
  - vm_compute; reflexivity.
Defined.

(** On a module that passed [check_config] the locator never raises;
    and when the module given to [check_config] defined neither
    [AMP_NAME] nor [AMP_SERIAL], the locator scans. *)
Theorem find_lsl_stream_after_check (cfg cfg' : gmap string pyval)
    (tr : list event) (scan_result : pyval * pyval) :
  check_config cfg = (cfg', (tr, Ret tt)) ->
  (exists scan amp, find_lsl_stream cfg' scan_result = (scan, Ret amp)) /\
  (cfg !! "AMP_NAME"%string = None -> cfg !! "AMP_SERIAL"%string = None ->
   find_lsl_stream cfg' scan_result = ([SearchLsl true], Ret scan_result)).
Proof.
  intros (_ & -> & _)%check_config_ok_inv. split.
  - destruct (set_optional_defines optional_vars cfg "AMP_NAME" PNone)
      as [n Hn]; [by left|].
    destruct (set_optional_defines optional_vars cfg "AMP_SERIAL" PNone)
      as [s Hs]; [by right; left|].
    rewrite (find_lsl_stream_eq _ _ _ _ Hn Hs).
    destruct (is_none n && is_none s); by eexists _, _.
  - intros Hn Hs.
    rewrite (find_lsl_stream_eq _ _ PNone PNone); [done|..];
      rewrite set_optional_lookup; [by rewrite Hn|by rewrite Hs].
Qed.

Lemma find_lsl_stream_after_check_witness :
  find_lsl_stream (check_config partial_cfg).1 scanned
  = ([SearchLsl true], Ret scanned).
Proof.
  apply (find_lsl_stream_after_check partial_cfg _
           (check_config partial_cfg).2.1 scanned);
    vm_compute; reflexivity.
Defined.

(** ** What a run can and cannot do *)

(** The main loop entered with [last_ts] unbound does nothing, or
    acquires one window and raises. *)
Lemma main_loop_unbound_inv cfg gate0 readings windows tr o :
  main_loop cfg gate0 readings windows None = (tr, o) ->
  tr = [] \/ (tr = [Acquire] /\ o = Raise (UnboundLocalError "last_ts")).
Proof.
  destruct gate0 as [|g gate']; simpl; [intros [= <- <-]; by left|].
  destruct (g =? 1); [|intros [= <- <-]; by left].
  destruct readings as [|now clock']; [intros [= <- <-]; by left|].
  unfold getattr.
  destruct (cfg !! "GLOBAL_TIME"%string) as [v|]; [|intros [= <- <-]; by left].
  simpl. destruct (as_num v) as [limit|]; [|intros [= <- <-]; by left].
  destruct (Qltb now limit); [|intros [= <- <-]; by left].
  destruct windows as [|[window tslist] stream'];
    intros [= <- <-]; [by left|by right].
Qed.

Ltac observe_trace :=
  unfold processed, assigned, paced, logged, acquired; cbn;
  repeat split; first [reflexivity | lia | discriminate].

Lemma run_observed (cfg : gmap string pyval) (w : world) :
  processed (run cfg w).1 = [] /\
  assigned (run cfg w).1 = [] /\
  paced (run cfg w).1 = [] /\
  logged WARNING (run cfg w).1 = [] /\
  (acquired (run cfg w).1 <= 1)%nat /\
  (acquired (run cfg w).1 = 1%nat ->
   (run cfg w).2 = Raise (UnboundLocalError "last_ts")).
Proof.
  unfold run.
  destruct (await_start (gate w)) as [[|g gate']|];
    [observe_trace| |observe_trace].
  cbn [bind emit]. destruct (g =? 0);
    [observe_trace|].
  unfold find_lsl_stream, connect_lsl_stream, getattr.
  destruct (main_loop cfg gate' (clock w) (stream w) None) as [tr o] eqn:Hloop.
  apply main_loop_unbound_inv in Hloop.
  destruct (cfg !! "AMP_NAME"%string) as [n|];
    [|observe_trace].
  destruct (cfg !! "AMP_SERIAL"%string) as [s|];
    [|destruct n; observe_trace].
  destruct (cfg !! "WINDOWSIZE"%string) as [ws|];
    [|destruct n, s; observe_trace].
  destruct (cfg !! "STREAMBUFFER"%string) as [bs|];
    [|destruct n, s; observe_trace].
  destruct Hloop as [-> | [-> ->]];
    destruct n, s; observe_trace.
Qed.

(** Whatever the module and whatever the gate, the timer and the stream
    do, [run] never hands a window to the per-window processing, never
    binds [last_ts] and never calls the pacer; it acquires at most one
    window, and when it does it ends with [UnboundLocalError]. *)
Theorem run_never_processes (cfg : gmap string pyval) (w : world) :
  processed (run cfg w).1 = [] /\
  assigned (run cfg w).1 = [] /\
  paced (run cfg w).1 = [] /\
  logged WARNING (run cfg w).1 = [] /\
  (acquired (run cfg w).1 <= 1)%nat /\
  (acquired (run cfg w).1 = 1%nat ->
   (run cfg w).2 = Raise (UnboundLocalError "last_ts")).
Proof. apply run_observed. Qed.

Lemma run_never_processes_witness :
  (run session_cfg session).2 = Raise (UnboundLocalError "last_ts").
Proof.
  apply (run_never_processes session_cfg session). vm_compute; reflexivity.
Defined.

(** The start check turns away a gate that reads 0 and nothing else.
    Whatever ended the wait (a 0 included), any other value at the check
    (a 2 included) lets [run] connect the amplifier; if the gate then
    does not read 1, [run] returns at once, nothing acquired, with exit
    status 0. *)
Theorem start_check_rejects_only_zero (cfg : gmap string pyval)
    (n s ws bs : pyval) (k : nat) (g0 g1 g : Z) (rest : list Z)
    (readings : list Q) (windows : list (matrix * list Q))
    (scan_result : pyval * pyval) :
  cfg !! "AMP_NAME"%string = Some n ->
  cfg !! "AMP_SERIAL"%string = Some s ->
  cfg !! "WINDOWSIZE"%string = Some ws ->
  cfg !! "STREAMBUFFER"%string = Some bs ->
  g0 <> 2 -> g1 <> 0 -> g <> 1 ->
  let r := run cfg (World (replicate k 2 ++ g0 :: g1 :: g :: rest) readings
                          windows scan_result) in
  connected r.1
  = [if is_none n && is_none s then scan_result else (n, s)] /\
  acquired r.1 = 0%nat /\
  r.2 = Ret tt /\
  exit_status r.2 = Some 0.
Proof.
  intros Hn Hs Hws Hbs Hg0 Hg1 Hg r. subst r.
  rewrite (run_armed cfg n s ws bs Hn Hs Hws Hbs _ _ _ _ _ _ _ Hg0 Hg1).
  rewrite (main_loop_stop _ _ _ _ _ _ Hg). cbn [fst snd].
  destruct (is_none n && is_none s); destruct scan_result; by repeat split.
Qed.

Lemma start_check_rejects_only_zero_witness :
  let r := run session_cfg
               (World [2; 0; 2; 2; 1; 1] session_clock fresh_stream scanned) in
  connected r.1 = [(PStr "amp", PStr "0001")] /\ r.2 = Ret tt.
Proof.
  destruct (start_check_rejects_only_zero session_cfg (PStr "amp")
              (PStr "0001") (PInt 1) (PInt 1) 1 0 2 2 [1; 1] session_clock
              fresh_stream scanned) as (Hc & _ & Hr & _);
    [vm_compute; reflexivity..|done|done|done|].
  by split.
Defined.

(** ** batch_run *)

Lemma batch_run_checked (cfg cfg' : gmap string pyval) tr w :
  check_config cfg = (cfg', (tr, Ret tt)) ->
  batch_run cfg w = (tr ++ (run cfg' w).1, (run cfg' w).2).
Proof.
  intros Hc. unfold batch_run. rewrite Hc. simpl.
  by destruct (run cfg' w).
Qed.

Lemma batch_run_unchecked (cfg : gmap string pyval) w :
  cfg !! "DATA_PATH"%string = None ->
  batch_run cfg w
  = ([Log ERROR required_msg [PStr "DATA_PATH"]], Raise RuntimeError).
Proof.
  intros Hp. unfold batch_run. by rewrite (check_config_missing _ Hp).
Qed.

Lemma check_config_total (cfg : gmap string pyval) p :
  cfg !! "DATA_PATH"%string = Some p ->
  check_config cfg
  = ((set_optional optional_vars cfg).1,
     (warning_of <$> List.filter (fun kd => negb (hasattr cfg kd.1))
                       optional_vars, Ret tt)).
Proof.
  intros Hp. rewrite (check_config_present _ _ Hp).
  rewrite set_optional_trace; [done|].
  apply (bool_decide_unpack _). by vm_compute.
Qed.

Lemma warnings_quiet (l : list (string * pyval)) :
  processed (warning_of <$> l) = [] /\
  acquired (warning_of <$> l) = 0%nat /\
  connected (warning_of <$> l) = [].
Proof. induction l as [|kd l (Hp & Ha & Hc)]; [done|]. by repeat split. Qed.

(** The name is not one [check_config] knows of: it is in the checked
    module exactly when it was in the module given. *)
Lemma set_optional_other (cfg : gmap string pyval) k :
  k ∉ optional_vars.*1 ->
  (set_optional optional_vars cfg).1 !! k = cfg !! k.
Proof.
  intros Hk. rewrite set_optional_lookup.
  destruct (cfg !! k); [done|]. by apply not_elem_of_list_to_map.
Qed.

Lemma set_optional_global_time (cfg : gmap string pyval) :
  (set_optional optional_vars cfg).1 !! "GLOBAL_TIME"%string
  = Some (default (PFloat 60) (cfg !! "GLOBAL_TIME"%string)).
Proof.
  rewrite set_optional_lookup. by destruct (cfg !! "GLOBAL_TIME"%string).
Qed.

Section Unconnected.

Variables (cfg : gmap string pyval) (n s : pyval).
Hypothesis Hname : cfg !! "AMP_NAME"%string = Some n.
Hypothesis Hserial : cfg !! "AMP_SERIAL"%string = Some s.

Lemma run_no_window_size k g0 g1 gate' readings windows scan_result :
  g0 <> 2 -> g1 <> 0 ->
  cfg !! "WINDOWSIZE"%string = None ->
  run cfg (World (replicate k 2 ++ g0 :: g1 :: gate') readings windows
                 scan_result)
  = (RedirectStdout INFO
       :: (if is_none n && is_none s then [SearchLsl true] else []),
     Raise (AttributeError "WINDOWSIZE")).
Proof.
  intros Hg0 Hg1 Hws. unfold run. cbn [gate clock stream found].
  rewrite await_start_wait, (await_start_first _ _ Hg0).
  apply Z.eqb_neq in Hg1. rewrite Hg1.
  rewrite (find_lsl_stream_eq _ _ _ _ Hname Hserial).
  unfold connect_lsl_stream, getattr. rewrite Hws.
  by destruct (is_none n && is_none s).
Qed.

Lemma run_no_stream_buffer k g0 g1 gate' readings windows scan_result ws :
  g0 <> 2 -> g1 <> 0 ->
  cfg !! "WINDOWSIZE"%string = Some ws ->
  cfg !! "STREAMBUFFER"%string = None ->
  run cfg (World (replicate k 2 ++ g0 :: g1 :: gate') readings windows
                 scan_result)
  = (RedirectStdout INFO
       :: (if is_none n && is_none s then [SearchLsl true] else []),
     Raise (AttributeError "STREAMBUFFER")).
Proof.
  intros Hg0 Hg1 Hws Hbs. unfold run. cbn [gate clock stream found].
  rewrite await_start_wait, (await_start_first _ _ Hg0).
  apply Z.eqb_neq in Hg1. rewrite Hg1.
  rewrite (find_lsl_stream_eq _ _ _ _ Hname Hserial).
  unfold connect_lsl_stream, getattr. rewrite Hws, Hbs.
  by destruct (is_none n && is_none s).
Qed.

End Unconnected.

(** [check_config] does not look at [WINDOWSIZE] and [STREAMBUFFER]: a
    module that lacks one of them passes the check, and the session then
    ends with [AttributeError] on that name once the gate lets it start,
    before any amplifier is connected. *)
Theorem batch_run_unchecked_names (cfg : gmap string pyval) (p : pyval)
    (k : nat) (g0 g1 : Z) (rest : list Z) (readings : list Q)
    (windows : list (matrix * list Q)) (scan_result : pyval * pyval) :
  cfg !! "DATA_PATH"%string = Some p ->
  g0 <> 2 -> g1 <> 0 ->
  let r := batch_run cfg (World (replicate k 2 ++ g0 :: g1 :: rest) readings
                                windows scan_result) in
  (cfg !! "WINDOWSIZE"%string = None ->
   r.2 = Raise (AttributeError "WINDOWSIZE") /\ connected r.1 = []) /\
  (is_Some (cfg !! "WINDOWSIZE"%string) ->
   cfg !! "STREAMBUFFER"%string = None ->
   r.2 = Raise (AttributeError "STREAMBUFFER") /\ connected r.1 = []).
Proof.
  intros Hp Hg0 Hg1 r. subst r.
  rewrite (batch_run_checked _ _ _ _ (check_config_total _ _ Hp)).
  cbn [fst snd].
  destruct (set_optional_defines optional_vars cfg "AMP_NAME" PNone)
    as [n Hn]; [by left|].
  destruct (set_optional_defines optional_vars cfg "AMP_SERIAL" PNone)
    as [s Hs]; [by right; left|].
  assert (Hother : forall key, key ∉ optional_vars.*1 ->
            (set_optional optional_vars cfg).1 !! key = cfg !! key)
    by apply set_optional_other.
  assert (Hquiet : forall scan : list event,
            (scan = [SearchLsl true] \/ scan = []) ->
            connected
              ((warning_of <$> List.filter
                  (fun kd => negb (hasattr cfg kd.1)) optional_vars)
               ++ RedirectStdout INFO :: scan) = []).
  { intros scan Hscan. unfold connected. rewrite omap_app.
    fold (connected (warning_of <$> List.filter
                       (fun kd => negb (hasattr cfg kd.1)) optional_vars)).
    rewrite (proj2 (proj2 (warnings_quiet _))).
    by destruct Hscan as [-> | ->]. }
  split.
  - intros Hws.
    rewrite (run_no_window_size _ n s Hn Hs _ _ _ _ _ _ _ Hg0 Hg1).
    + split; [done|]. apply Hquiet.
      destruct (is_none n && is_none s); [by left|by right].
    + rewrite Hother; [done|]. simpl. rewrite !elem_of_cons, elem_of_nil.
      by intros [|[|[|[|]]]].
  - intros [ws Hws] Hbs.
    rewrite (run_no_stream_buffer _ n s Hn Hs _ _ _ _ _ _ _ ws Hg0 Hg1).
    + split; [done|]. apply Hquiet.
      destruct (is_none n && is_none s); [by left|by right].
    + rewrite Hother; [done|]. simpl. rewrite !elem_of_cons, elem_of_nil.
      by intros [|[|[|[|]]]].
    + rewrite Hother; [done|]. simpl. rewrite !elem_of_cons, elem_of_nil.
      by intros [|[|[|[|]]]].
Qed.

Lemma batch_run_unchecked_names_witness :
  (batch_run partial_cfg session).2 = Raise (AttributeError "WINDOWSIZE").
Proof.
  destruct (batch_run_unchecked_names partial_cfg (PStr "/data") 0 1 1
              [1; 1; 1; 1; 1; 1] session_clock fresh_stream scanned)
    as [Hws _]; [vm_compute; reflexivity|done|done|].
  apply Hws. vm_compute; reflexivity.
Defined.

(** No session run by [batch_run] reaches its deadline.  Whatever the
    module, once the gate lets the session start and reads 1 at the
    first test of the loop, with a window to acquire and the global
    timer still below the global time in force (the module's own, or
    60.0), the session ends with an uncaught exception, exit status 1,
    and no window was handed to the per-window processing. *)
Theorem batch_run_never_completes (cfg : gmap string pyval) (k : nat)
    (g0 g1 : Z) (rest : list Z) (now : Q) (clock' : list Q)
    (win : matrix * list Q) (stream' : list (matrix * list Q))
    (scan_result : pyval * pyval) :
  g0 <> 2 -> g1 <> 0 ->
  (forall limit,
     as_num (default (PFloat 60) (cfg !! "GLOBAL_TIME"%string)) = Some limit ->
     (now < limit)%Q) ->
  let r := batch_run cfg (World (replicate k 2 ++ g0 :: g1 :: 1 :: rest)
                                (now :: clock') (win :: stream')
                                scan_result) in
  (exists e, r.2 = Raise e) /\
  exit_status r.2 = Some 1 /\
  processed r.1 = [].
Proof.
  intros Hg0 Hg1 Hnow r. subst r.
  destruct (cfg !! "DATA_PATH"%string) as [p|] eqn:Hp;
    [|rewrite (batch_run_unchecked _ _ Hp); split; [by eexists|done]].
  rewrite (batch_run_checked _ _ _ _ (check_config_total _ _ Hp)).
  cbn [fst snd]. set (cfg' := (set_optional optional_vars cfg).1).
  set (w := World _ _ _ _).
  assert (Hproc : forall tr, processed tr = [] ->
            processed ((warning_of <$> List.filter
                          (fun kd => negb (hasattr cfg kd.1)) optional_vars)
                       ++ tr) = []).
  { intros tr Htr. unfold processed in *. rewrite omap_app, Htr.
    fold (processed (warning_of <$> List.filter
                       (fun kd => negb (hasattr cfg kd.1)) optional_vars)).
    by rewrite (proj1 (warnings_quiet _)). }
  split; [|split; [|apply Hproc, run_observed]].
  all: destruct (set_optional_defines optional_vars cfg "AMP_NAME" PNone)
         as [n Hn]; [by left|].
  all: destruct (set_optional_defines optional_vars cfg "AMP_SERIAL" PNone)
         as [s Hs]; [by right; left|].
  all: fold cfg' in Hn, Hs.
  all: destruct (cfg' !! "WINDOWSIZE"%string) as [ws|] eqn:Hws;
         [|subst w; rewrite (run_no_window_size _ n s Hn Hs _ _ _ _ _ _ _
                               Hg0 Hg1 Hws); by eauto].
  all: destruct (cfg' !! "STREAMBUFFER"%string) as [bs|] eqn:Hbs;
         [|subst w; rewrite (run_no_stream_buffer _ n s Hn Hs _ _ _ _ _ _ _
                               ws Hg0 Hg1 Hws Hbs); by eauto].
  all: subst w;
       rewrite (run_armed cfg' n s ws bs Hn Hs Hws Hbs _ _ _ _ _ _ _ Hg0 Hg1);
       cbn [fst snd].
  all: pose proof (set_optional_global_time cfg) as Hglobal;
       fold cfg' in Hglobal.
  all: destruct (as_num (default (PFloat 60) (cfg !! "GLOBAL_TIME"%string)))
         as [limit|] eqn:Hlimit.
  1, 3: rewrite (main_loop_unbound cfg' _ limit Hglobal Hlimit);
        [by eauto|by apply Hnow..].
  all: simpl; unfold getattr; rewrite Hglobal; simpl; rewrite Hlimit;
       by eauto.
Qed.

Lemma batch_run_never_completes_witness :
  exit_status (batch_run session_cfg session).2 = Some 1.
Proof.
  refine (proj1 (proj2 (batch_run_never_completes session_cfg 0 1 1
            [1; 1; 1; 1; 1] 0%Q [0.05; 0.1; 0.15; 0.2; 0.25]%Q
            ([[11; 12]; [21; 22]], [1; 2])%Q (tail fresh_stream) scanned
            _ _ _))); [done|done|].
  intros limit [= <-]. by vm_compute.
Defined.

(** A module that sets [GLOBAL_TIME] to a value that is not a number
    (an explicit [None], a string) passes [check_config] with no warning
    about [GLOBAL_TIME], since the name is there; the session then ends
    with [TypeError] at the first test of the loop condition that finds
    the gate at 1, before any window is acquired. *)
Theorem batch_run_global_time_not_a_number (cfg : gmap string pyval)
    (p v ws bs : pyval) (k : nat) (g0 g1 : Z) (rest : list Z) (now : Q)
    (clock' : list Q) (windows : list (matrix * list Q))
    (scan_result : pyval * pyval) :
  cfg !! "DATA_PATH"%string = Some p ->
  cfg !! "WINDOWSIZE"%string = Some ws ->
  cfg !! "STREAMBUFFER"%string = Some bs ->
  cfg !! "GLOBAL_TIME"%string = Some v ->
  as_num v = None ->
  g0 <> 2 -> g1 <> 0 ->
  let r := batch_run cfg (World (replicate k 2 ++ g0 :: g1 :: 1 :: rest)
                                (now :: clock') windows scan_result) in
  r.2 = Raise TypeError /\
  acquired r.1 = 0%nat /\
  ((undefined_msg, [PStr "GLOBAL_TIME"; PFloat 60]) ∉ logged WARNING r.1) /\
  (check_config cfg).1 !! "GLOBAL_TIME"%string = Some v.
Proof.
  intros Hp Hws Hbs Hgt Hv Hg0 Hg1 r. subst r.
  rewrite (check_config_total _ _ Hp).
  rewrite (batch_run_checked _ _ _ _ (check_config_total _ _ Hp)).
  cbn [fst snd]. set (cfg' := (set_optional optional_vars cfg).1).
  destruct (set_optional_defines optional_vars cfg "AMP_NAME" PNone)
    as [n Hn]; [by left|].
  destruct (set_optional_defines optional_vars cfg "AMP_SERIAL" PNone)
    as [s Hs]; [by right; left|].
  fold cfg' in Hn, Hs.
  assert (Hother : forall key, key ∉ optional_vars.*1 ->
            cfg' !! key = cfg !! key) by apply set_optional_other.
  assert (Hnot : forall key : string,
            (key = "WINDOWSIZE" \/ key = "STREAMBUFFER")%string ->
            key ∉ optional_vars.*1).
  { intros key Hkey. simpl. rewrite !elem_of_cons, elem_of_nil.
    by destruct Hkey as [-> | ->]; intros [|[|[|[|]]]]. }
  assert (Hws' : cfg' !! "WINDOWSIZE"%string = Some ws)
    by (rewrite Hother; [done|apply Hnot; by left]).
  assert (Hbs' : cfg' !! "STREAMBUFFER"%string = Some bs)
    by (rewrite Hother; [done|apply Hnot; by right]).
  assert (Hgt' : cfg' !! "GLOBAL_TIME"%string = Some v)
    by (unfold cfg'; by rewrite set_optional_global_time, Hgt).
  rewrite (run_armed cfg' n s ws bs Hn Hs Hws' Hbs' _ _ _ _ _ _ _ Hg0 Hg1).
  assert (Hloop : main_loop cfg' (1 :: rest) (now :: clock') windows None
                  = ([], Raise TypeError)).
  { simpl. unfold getattr. rewrite Hgt'. simpl. by rewrite Hv. }
  rewrite Hloop. cbn [fst snd]. rewrite app_nil_r.
  split; [done|]. split; [|split; [|done]].
  - unfold acquired. rewrite omap_app, length_app.
    fold (acquired (warning_of <$> List.filter
                      (fun kd => negb (hasattr cfg kd.1)) optional_vars)).
    rewrite (proj1 (proj2 (warnings_quiet _))).
    by destruct (is_none n && is_none s).
  - unfold logged. rewrite omap_app, elem_of_app. intros [Hin|Hin].
    + apply list_elem_of_omap in Hin as (e & He & Hlog).
      apply list_elem_of_fmap in He as ([key d] & -> & Hkd).
      apply list_elem_of_In, filter_In in Hkd as [_ Hmiss].
      simpl in Hlog, Hmiss. injection Hlog as -> _.
      by rewrite (hasattr_Some _ _ _ Hgt) in Hmiss.
    + by destruct (is_none n && is_none s); vm_compute in Hin;
        apply elem_of_nil in Hin.
Qed.

Lemma batch_run_global_time_not_a_number_witness :
  (batch_run untimed_cfg session).2 = Raise TypeError.
Proof.
  refine (proj1 (batch_run_global_time_not_a_number untimed_cfg
            (PStr "/data") PNone (PInt 1) (PInt 1) 0 1 1 [1; 1; 1; 1; 1]
            0%Q [0.05; 0.1; 0.15; 0.2; 0.25]%Q fresh_stream scanned
            _ _ _ _ _ _ _)); try done; vm_compute; reflexivity.
Defined.

(** ** The continuity check *)

Lemma where_gt_shift (i : nat) (tslist : list Q) (l : Q) :
  where_gt (S i) tslist l = S <$> where_gt i tslist l.
Proof.
  revert i. induction tslist as [|t ts IH]; intros i; [done|]. simpl.
  destruct (Qltb l t); simpl; by rewrite IH.
Qed.

(** [where_gt] is [np.where] on the comparison: it holds exactly the
    positions of the timestamps strictly above [last_ts], in increasing
    order. *)
Theorem where_gt_spec (tslist : list Q) (l : Q) :
  (forall i, i ∈ where_gt 0 tslist l <->
             exists t, tslist !! i = Some t /\ (l < t)%Q) /\
  Sorted lt (where_gt 0 tslist l).
Proof.
  induction tslist as [|t ts [IHin IHs]].
  { split; [|constructor]. intros i. simpl. split.
    - by intros ?%elem_of_nil.
    - by intros (t & [=] & _). }
  assert (Hshift : forall i, i ∈ where_gt 1 ts l <->
            exists j, i = S j /\ exists t', ts !! j = Some t' /\ (l < t')%Q).
  { intros i. rewrite where_gt_shift, list_elem_of_fmap. split.
    - intros (j & -> & Hj). exists j. split; [done|]. by apply IHin.
    - intros (j & -> & Hj). exists j. split; [done|]. by apply IHin. }
  assert (Hsorted : Sorted lt (where_gt 1 ts l)).
  { rewrite where_gt_shift. apply Sorted_fmap with (R1 := lt); [|done].
    intros ???. lia. }
  split.
  - intros i. simpl. destruct (Qltb l t) eqn:Hlt.
    + rewrite elem_of_cons, Hshift. split.
      * intros [-> | (j & -> & Hj)]; [|done].
        exists t. split; [done|]. by apply Qltb_lt.
      * destruct i as [|j]; [by left|]. intros Hj. right. by exists j.
    + rewrite Hshift. split.
      * by intros (j & -> & Hj).
      * destruct i as [|j]; [|intros Hj; by exists j].
        intros (t' & [= <-] & Hl). apply Qltb_lt in Hl. congruence.
  - simpl. destruct (Qltb l t); [|done]. constructor; [done|].
    assert (Hpos : forall j, j ∈ where_gt 1 ts l -> (0 < j)%nat).
    { intros j (j' & -> & _)%Hshift. lia. }
    destruct (where_gt 1 ts l) as [|j js]; constructor.
    apply Hpos. left.
Qed.

(** On a window whose timestamps are non-decreasing, the check succeeds
    exactly when the final timestamp is strictly above [last_ts]. *)
Theorem fresh_iff_final_advances (tslist : list Q) (l : Q) :
  Sorted Qle tslist ->
  (where_gt 0 tslist l <> [] <->
   exists f, last tslist = Some f /\ (l < f)%Q).
Proof.
  intros Hsorted. split.
  - intros (t & Ht & Hlt)%where_gt_cons.
    destruct (last tslist) as [f|] eqn:Hlast.
    + exists f. split; [done|]. apply Qlt_le_trans with t; [done|].
      by apply (sorted_final tslist).
    + apply last_None in Hlast as ->. by apply elem_of_nil in Ht.
  - intros (f & Hlast & Hlt) Hnil.
    apply (proj1 (where_gt_nil _ _ _) Hnil f); [|done].
    apply last_Some in Hlast as [l' ->]. apply elem_of_app. right. left.
Qed.

Lemma fresh_iff_final_advances_witness :
  where_gt 0 [1; 2; 3]%Q 2%Q <> [].
Proof.
  apply (fresh_iff_final_advances [1; 2; 3]%Q 2%Q).
  - repeat constructor; by vm_compute.
  - exists 3%Q. split; [reflexivity|by vm_compute].
Defined.

(** ** Executions of the main loop, in full *)

(** The first test of the loop condition ends the loop with no event, or
    it passes (the gate reads 1 and the timer is below the global time)
    and the first iteration acquires a window; then the comparison
    raises, or nothing is new, or the window is handed on. *)
Lemma main_loop_cases cfg gate0 readings windows ls tr o :
  main_loop cfg gate0 readings windows ls = (tr, o) ->
  (tr = [] /\
   (o = Pending \/ o = Ret tt \/ o = Raise TypeError \/
    o = Raise (AttributeError "GLOBAL_TIME"))) \/
  exists gate' now clock' window tslist stream' v limit,
    gate0 = 1 :: gate' /\ readings = now :: clock' /\
    windows = (window, tslist) :: stream' /\
    cfg !! "GLOBAL_TIME"%string = Some v /\ as_num v = Some limit /\
    (now < limit)%Q /\
    ((ls = None /\ tr = [Acquire] /\
      o = Raise (UnboundLocalError "last_ts"))
     \/
     exists l, ls = Some l /\
       (((forall t, t ∈ tslist -> ~ (l < t)%Q) /\
         exists tr', main_loop cfg gate' clock' stream' (Some l) = (tr', o) /\
                     tr = stale_round ++ tr')
        \/
        ((exists t, t ∈ tslist /\ (l < t)%Q) /\
         exists f, last tslist = Some f /\
           ((cfg !! "TIMER_SLEEP"%string = None /\
             o = Raise (AttributeError "TIMER_SLEEP") /\
             tr = [Acquire; Process (transpose window) tslist;
                   AssignLastTs f])
            \/
            (exists interval tr',
               cfg !! "TIMER_SLEEP"%string = Some interval /\
               main_loop cfg gate' clock' stream' (Some f) = (tr', o) /\
               tr = [Acquire; Process (transpose window) tslist;
                     AssignLastTs f; SleepAtLeast interval] ++ tr'))))).
Proof.
  destruct gate0 as [|g gate']; simpl; [intros [= <- <-]; left; by auto|].
  destruct (g =? 1) eqn:Hg; [|intros [= <- <-]; left; by auto].
  apply Z.eqb_eq in Hg as ->.
  destruct readings as [|now clock']; [intros [= <- <-]; left; by auto|].
  unfold getattr.
  destruct (cfg !! "GLOBAL_TIME"%string) as [v|] eqn:Hv;
    [|intros [= <- <-]; left; by auto 6].
  simpl. destruct (as_num v) as [limit|] eqn:Hlimit;
    [|intros [= <- <-]; left; by auto 6].
  destruct (Qltb now limit) eqn:Hnow; [|intros [= <- <-]; left; by auto].
  apply Qltb_lt in Hnow.
  destruct windows as [|[window tslist] stream'];
    [intros [= <- <-]; left; by auto|].
  intros Hrun. right.
  exists gate', now, clock', window, tslist, stream', v, limit.
  do 6 (split; [done|]).
  destruct ls as [l|]; [|injection Hrun as <- <-; by left].
  right. exists l. split; [done|].
  assert (Hstep : main_loop cfg (1 :: gate') (now :: clock')
                    ((window, tslist) :: stream') (Some l) = (tr, o)).
  { simpl. unfold getattr. rewrite Hv. simpl. rewrite Hlimit.
    apply Qltb_lt in Hnow. by rewrite Hnow. }
  apply main_loop_inv in Hstep as [[-> | ->] | Hstep].
  - exfalso. revert Hrun. simpl.
    destruct (length (where_gt 0 tslist l) =? 0)%nat; simpl.
    + by destruct (main_loop cfg gate' clock' stream' (Some l)).
    + unfold final_ts. destruct (last tslist); simpl; [|done].
      unfold getattr. destruct (cfg !! "TIMER_SLEEP"%string); simpl; [|done].
      by destruct (main_loop cfg gate' clock' stream' _).
  - exfalso. revert Hrun. simpl.
    destruct (length (where_gt 0 tslist l) =? 0)%nat; simpl.
    + by destruct (main_loop cfg gate' clock' stream' (Some l)).
    + unfold final_ts. destruct (last tslist); simpl; [|done].
      unfold getattr. destruct (cfg !! "TIMER_SLEEP"%string); simpl; [|done].
      by destruct (main_loop cfg gate' clock' stream' _).
  - destruct Hstep as (? & ? & ? & ? & ? & ? & ? & [= <-] & [= <- <-]
                       & [= <- <- <-] & [= <-] & Hstep).
    exact Hstep.
Qed.

(** Over windows whose timestamps are non-decreasing, every window that
    is handed on moves [last_ts] strictly forward: the values [last_ts]
    takes, the one it started from included, increase strictly. *)
Theorem last_ts_strictly_increasing (cfg : gmap string pyval)
    (gate0 : list Z) (readings : list Q) (windows : list (matrix * list Q))
    (ls : option Q) (tr : list event) (o : outcome unit) :
  Forall (fun win => Sorted Qle win.2) windows ->
  main_loop cfg gate0 readings windows ls = (tr, o) ->
  Sorted Qlt (option_list ls ++ assigned tr).
Proof.
  revert readings windows ls tr o.
  induction gate0 as [|g gate' IH]; intros readings windows ls tr o Hsorted Hrun.
  { injection Hrun as <- <-. rewrite app_nil_r.
    destruct ls; simpl; by repeat constructor. }
  apply main_loop_cases in Hrun as [[-> _] | Hstep].
  { rewrite app_nil_r. destruct ls; simpl; by repeat constructor. }
  destruct Hstep as (gate'' & now & clock' & window & tslist & stream' & v
                     & limit & [= -> ->] & -> & -> & _ & _ & _ & Hstep).
  apply Forall_cons in Hsorted as [Hts Hsorted]. simpl in Hts.
  destruct Hstep as [(-> & -> & _) | (l & -> & Hstep)];
    [by repeat constructor|].
  destruct Hstep as [(_ & tr' & Hrec & ->) | (Hfresh & f & Hlast & Hrest)].
  - exact (IH _ _ _ _ _ Hsorted Hrec).
  - assert (Hlf : (l < f)%Q).
    { destruct Hfresh as (t & Ht & Hlt).
      apply Qlt_le_trans with t; [done|]. by apply (sorted_final tslist). }
    destruct Hrest as [(_ & _ & ->) | (interval & tr' & _ & Hrec & ->)].
    + simpl. by repeat constructor.
    + pose proof (IH _ _ _ _ _ Hsorted Hrec) as IHs. simpl in *.
      constructor; [done|]. by constructor.
Qed.

Lemma last_ts_strictly_increasing_witness :
  Sorted Qlt [0; 2; 3; 4]%Q.
Proof.
  assert (Hsorted : Forall (fun win => Sorted Qle win.2) fresh_stream)
    by (repeat constructor; by vm_compute).
  exact (last_ts_strictly_increasing session_cfg [1; 1; 1; 0] session_clock
           fresh_stream (Some 0%Q) _ _ Hsorted (surjective_pairing _)).
Defined.

(** The loop stops acquiring for good at the first read of the gate
    that is not 1 and at the first reading of the global timer that has
    reached the global time: it acquires at most as many windows as the
    gate starts with reads of 1, as the timer starts with readings below
    the global time, and as the stream has windows. *)
Theorem acquisitions_bounded (cfg : gmap string pyval) (v : pyval)
    (limit : Q) (gate0 : list Z) (readings : list Q)
    (windows : list (matrix * list Q)) (ls : option Q) (tr : list event)
    (o : outcome unit) :
  cfg !! "GLOBAL_TIME"%string = Some v ->
  as_num v = Some limit ->
  main_loop cfg gate0 readings windows ls = (tr, o) ->
  (acquired tr <= leading (Z.eqb 1) gate0)%nat /\
  (acquired tr <= leading (fun now => Qltb now limit) readings)%nat /\
  (acquired tr <= length windows)%nat.
Proof.
  intros Hv Hlimit. revert readings windows ls tr o.
  induction gate0 as [|g gate' IH]; intros readings windows ls tr o Hrun.
  { injection Hrun as <- <-. unfold acquired. simpl. lia. }
  apply main_loop_cases in Hrun as [[-> _] | Hstep].
  { unfold acquired. simpl. lia. }
  destruct Hstep as (gate'' & now & clock' & window & tslist & stream' & v'
                     & limit' & [= -> ->] & -> & -> & Hv' & Hlimit' & Hnow
                     & Hstep).
  rewrite Hv in Hv'. injection Hv' as <-.
  rewrite Hlimit in Hlimit'. injection Hlimit' as <-.
  apply Qltb_lt in Hnow. cbn [leading length]. rewrite Hnow. simpl Z.eqb.
  cbv iota.
  destruct Hstep as [(-> & -> & _) | (l & -> & Hstep)];
    [unfold acquired; simpl; lia|].
  destruct Hstep as [(_ & tr' & Hrec & ->) | (_ & f & _ & Hrest)].
  - destruct (IH _ _ _ _ _ Hrec) as (H1 & H2 & H3).
    change (acquired (stale_round ++ tr')) with (S (acquired tr')). lia.
  - destruct Hrest as [(_ & _ & ->) | (interval & tr' & _ & Hrec & ->)].
    + unfold acquired. simpl. lia.
    + destruct (IH _ _ _ _ _ Hrec) as (H1 & H2 & H3).
      change (acquired (_ ++ tr')) with (S (acquired tr')). lia.
Qed.

Lemma acquisitions_bounded_witness :
  (acquired (main_loop session_cfg [1; 1; 1; 1; 1; 1]%Z session_clock
                       fresh_stream (Some 0%Q)).1 <= 4)%nat.
Proof.
  refine (proj1 (proj2 (acquisitions_bounded session_cfg (PFloat 0.2) 0.2%Q
            [1; 1; 1; 1; 1; 1] session_clock fresh_stream (Some 0%Q)
            _ (Ret tt) _ _ _))); vm_compute; reflexivity.
Defined.

Lemma observe_stale_round (tr : list event) :
  acquired (stale_round ++ tr) = S (acquired tr) /\
  processed (stale_round ++ tr) = processed tr /\
  length (logged WARNING (stale_round ++ tr))
  = S (length (logged WARNING tr)) /\
  assigned (stale_round ++ tr) = assigned tr /\
  slept (stale_round ++ tr) = 1 :: slept tr /\
  paced (stale_round ++ tr) = paced tr.
Proof. by repeat split. Qed.

Lemma observe_accepted w ts f interval (tr : list event) :
  let round := [Acquire; Process w ts; AssignLastTs f;
                SleepAtLeast interval] in
  acquired (round ++ tr) = S (acquired tr) /\
  processed (round ++ tr) = (w, ts) :: processed tr /\
  logged WARNING (round ++ tr) = logged WARNING tr /\
  assigned (round ++ tr) = f :: assigned tr /\
  slept (round ++ tr) = slept tr /\
  paced (round ++ tr) = interval :: paced tr.
Proof. by repeat split. Qed.

(** From any entry state, [last_ts] bound or not: every acquired window
    is handed on, or answered by one warning and a sleep of one second,
    or, when [last_ts] is unbound, is the one on which the loop ends
    with [UnboundLocalError].  Every window handed on is followed by an
    assignment to [last_ts]; the pacer is called with the module's
    [TIMER_SLEEP] once per window handed on, except that a module
    without [TIMER_SLEEP] makes the loop raise [AttributeError] after
    its first window was handed on and before any call of the pacer.
    Entered with [last_ts] unbound, as [run] enters it, the loop hands
    on nothing and logs nothing. *)
Theorem main_loop_accounting (cfg : gmap string pyval) (gate0 : list Z)
    (readings : list Q) (windows : list (matrix * list Q)) (ls : option Q)
    (tr : list event) (o : outcome unit) :
  main_loop cfg gate0 readings windows ls = (tr, o) ->
  acquired tr
  = (length (processed tr) + length (logged WARNING tr)
     + match o with Raise (UnboundLocalError _) => 1 | _ => 0 end)%nat /\
  length (assigned tr) = length (processed tr) /\
  slept tr = replicate (length (logged WARNING tr)) 1 /\
  (forall interval, interval ∈ paced tr ->
                    cfg !! "TIMER_SLEEP"%string = Some interval) /\
  (o = Raise (AttributeError "TIMER_SLEEP") ->
   cfg !! "TIMER_SLEEP"%string = None /\
   length (processed tr) = 1%nat /\ paced tr = []) /\
  (o <> Raise (AttributeError "TIMER_SLEEP") ->
   length (paced tr) = length (processed tr)) /\
  (ls = None -> processed tr = [] /\ logged WARNING tr = []).
Proof.
  revert readings windows ls tr o.
  induction gate0 as [|g gate' IH]; intros readings windows ls tr o Hrun.
  { injection Hrun as <- <-. do 3 (split; [done|]).
    split; [by intros ? ?%elem_of_nil|]. by repeat (split; [done|]). }
  apply main_loop_cases in Hrun as [[-> Ho] | Hstep].
  { split; [by destruct Ho as [Ho|[Ho|[Ho|Ho]]]; rewrite Ho|].
    do 2 (split; [done|]).
    split; [by intros ? ?%elem_of_nil|].
    split; [intros ->; by destruct Ho as [|[|[|]]]|]. by split. }
  destruct Hstep as (gate'' & now & clock' & window & tslist & stream' & v
                     & limit & [= -> ->] & -> & -> & _ & _ & _ & Hstep).
  destruct Hstep as [(-> & -> & ->) | (l & -> & Hstep)].
  { do 3 (split; [done|]). split; [by intros ? ?%elem_of_nil|].
    by repeat (split; [done|]). }
  destruct Hstep as [(_ & tr' & Hrec & ->) | (_ & f & _ & Hrest)].
  - destruct (IH _ _ _ _ _ Hrec) as (Ha & Hs & Hsl & Hp & Hraise & Hok & _).
    destruct (observe_stale_round tr') as (-> & -> & -> & -> & -> & ->).
    rewrite Ha, Hsl. split; [lia|]. by repeat (split; [done|]).
  - destruct Hrest as [(Hnone & -> & ->) | (interval & tr' & Hint & Hrec & ->)].
    + do 3 (split; [done|]). split; [by intros ? ?%elem_of_nil|].
      by repeat (split; [done|]).
    + destruct (IH _ _ _ _ _ Hrec)
        as (Ha & Hs & Hsl & Hp & Hraise & Hok & _).
      destruct (observe_accepted (transpose window) tslist f interval tr')
        as (-> & -> & -> & -> & -> & ->).
      split; [simpl; lia|]. split; [simpl; lia|]. split; [done|].
      split; [|split; [|split; [|done]]].
      * intros i [-> | Hi]%elem_of_cons; [done|by apply Hp].
      * intros Ho. destruct (Hraise Ho) as [Hnone _]. congruence.
      * intros Ho. simpl. by rewrite (Hok Ho).
Qed.

Lemma main_loop_accounting_witness :
  let r := main_loop session_cfg [1; 1; 1; 1; 1; 1; 1] session_clock
                     stale_stream None in
  processed r.1 = [] /\ logged WARNING r.1 = [] /\
  acquired r.1 = 1%nat.
Proof.
  destruct (main_loop_accounting session_cfg [1; 1; 1; 1; 1; 1; 1]
              session_clock stale_stream None _ _ (surjective_pairing _))
    as (Ha & _ & _ & _ & _ & _ & Hnone).
  destruct (Hnone eq_refl) as [Hp Hw].
  split; [exact Hp|]. split; [exact Hw|].
  rewrite Ha, Hp, Hw. vm_compute; reflexivity.
Defined.

(** ** load_config *)

Lemma has_slash_app (d base : string) :
  has_slash (d +:+ String "/" base) = true.
Proof. induction d as [|a d IH]; simpl; [done|]. by rewrite IH, orb_true_r. Qed.

Lemma cut_last_slash_plain (p : string) :
  has_slash p = false -> cut_last_slash p = (EmptyString, p).
Proof.
  destruct p as [|a p]; [done|]. simpl.
  intros [Ha Hp]%orb_false_elim. by rewrite Hp, Ha.
Qed.

Lemma cut_last_slash_app (d base : string) :
  has_slash base = false ->
  cut_last_slash (d +:+ String "/" base) = (d +:+ String "/" EmptyString, base).
Proof.
  intros Hbase. induction d as [|a d IH]; simpl.
  - by rewrite Hbase.
  - by rewrite has_slash_app, IH.
Qed.

Lemma cut_last_slash_tail (p : string) : has_slash (cut_last_slash p).2 = false.
Proof.
  induction p as [|a p IH]; [done|]. simpl.
  destruct (has_slash p) eqn:Hp.
  - by destruct (cut_last_slash p).
  - destruct (is_slash a) eqn:Ha; simpl; [done|]. by rewrite Ha, Hp.
Qed.

Lemma path_split_tail (p : string) :
  (path_split p).2 = (cut_last_slash p).2.
Proof.
  unfold path_split. destruct (cut_last_slash p) as [head tail].
  by destruct (_ && _).
Qed.

Lemma before_dot_chars (s : string) (c : Ascii.ascii) :
  c ∈ chars (before_dot s) -> c ∈ chars s /\ is_dot c = false.
Proof.
  induction s as [|a s IH]; simpl; [by intros ?%elem_of_nil|].
  destruct (is_dot a) eqn:Ha; simpl; [by intros ?%elem_of_nil|].
  intros [-> | Hc]%elem_of_cons.
  - split; [left|done].
  - destruct (IH Hc). split; [by right|done].
Qed.

Lemma has_slash_chars (s : string) (c : Ascii.ascii) :
  has_slash s = false -> c ∈ chars s -> is_slash c = false.
Proof.
  induction s as [|a s IH]; simpl; [by intros _ ?%elem_of_nil|].
  intros [Ha Hs]%orb_false_elim [-> | Hc]%elem_of_cons; [done|by apply IH].
Qed.

Lemma before_dot_app (name rest : string) :
  (forall c, c ∈ chars name -> is_dot c = false) ->
  before_dot (name +:+ String "." rest) = name.
Proof.
  induction name as [|a name IH]; intros Hname; simpl; [done|].
  rewrite (Hname a); [|left]. rewrite IH; [done|].
  intros c Hc. apply Hname. by right.
Qed.

Lemma has_slash_app_plain (s t : string) :
  has_slash s = false -> has_slash t = false -> has_slash (s +:+ t) = false.
Proof.
  induction s as [|a s IH]; simpl; [done|].
  intros [-> Hs]%orb_false_elim Ht. by apply IH.
Qed.

Lemma all_slashes_dir (d : string) (a : Ascii.ascii) :
  last (chars d) = Some a -> is_slash a = false ->
  all_slashes (d +:+ String "/" EmptyString) = false.
Proof.
  induction d as [|b d IH]; [done|]. simpl. intros Hlast Ha.
  destruct d as [|b' d].
  - injection Hlast as ->. by rewrite Ha.
  - rewrite IH; [apply andb_false_r|done..].
Qed.

Lemma rstrip_slash_dir (d : string) (a : Ascii.ascii) :
  last (chars d) = Some a -> is_slash a = false ->
  rstrip_slash (d +:+ String "/" EmptyString) = d.
Proof.
  induction d as [|b d IH]; [done|]. simpl. intros Hlast Ha.
  destruct d as [|b' d].
  - injection Hlast as ->. by rewrite Ha.
  - rewrite (all_slashes_dir (String b' d) a Hlast Ha), andb_false_r.
    by rewrite IH.
Qed.

Lemma load_config_import
    (finder : list string -> string -> option (gmap string pyval))
    (sys_path : list string) (cfg_file : string) :
  (load_config finder sys_path cfg_file).2
  = import_module finder (sys_path ++ [(path_split cfg_file).1])
                  (before_dot (path_split cfg_file).2).
Proof. unfold load_config. by destruct (path_split cfg_file). Qed.

(** The module name [load_config] asks the import system for holds no
    dot and no slash, whatever the path: the import is never relative
    and never reaches into a package. *)
Theorem load_config_module_name
    (finder : list string -> string -> option (gmap string pyval))
    (sys_path : list string) (cfg_file : string) :
  let name := before_dot (path_split cfg_file).2 in
  (load_config finder sys_path cfg_file).2
  = import_module finder (sys_path ++ [(path_split cfg_file).1]) name /\
  ("."%char ∉ chars name) /\
  ("/"%char ∉ chars name).
Proof.
  cbn zeta. split; [|split].
  - apply load_config_import.
  - by intros [_ [=]]%before_dot_chars.
  - intros [Hin _]%before_dot_chars. rewrite path_split_tail in Hin.
    by apply (has_slash_chars _ _ (cut_last_slash_tail cfg_file)) in Hin.
Qed.

(** For a file [dir/name.rest], where [dir] does not end with a slash
    and [name] holds no dot, [load_config] appends [dir] to [sys.path]
    and imports [name]: everything after the first dot of the file name
    is dropped, not only a final [.py]. *)
Theorem load_config_dir_name
    (finder : list string -> string -> option (gmap string pyval))
    (sys_path : list string) (dir name rest : string) (a : Ascii.ascii) :
  last (chars dir) = Some a -> a <> "/"%char ->
  (forall c, c ∈ chars name -> c <> "."%char /\ c <> "/"%char) ->
  has_slash rest = false ->
  load_config finder sys_path (dir +:+ "/" +:+ name +:+ "." +:+ rest)
  = (sys_path ++ [dir], import_module finder (sys_path ++ [dir]) name).
Proof.
  intros Hlast Ha Hname Hrest.
  assert (Ha' : is_slash a = false) by by apply Ascii.eqb_neq.
  assert (Hdots : forall c, c ∈ chars name -> is_dot c = false).
  { intros c Hc. apply Ascii.eqb_neq. by apply Hname. }
  assert (Hbase : has_slash (name +:+ String "." rest) = false).
  { apply has_slash_app_plain; [|done]. clear -Hname.
    induction name as [|c name IH]; [done|]. simpl.
    rewrite IH; [|intros c' Hc'; apply Hname; by right].
    rewrite orb_false_r. apply Ascii.eqb_neq. apply Hname. left. }
  unfold load_config, path_split.
  change (dir +:+ "/" +:+ name +:+ "." +:+ rest)
    with (dir +:+ String "/" (name +:+ String "." rest)).
  rewrite (cut_last_slash_app _ _ Hbase).
  rewrite (all_slashes_dir _ _ Hlast Ha').
  assert (String.eqb (dir +:+ String "/" EmptyString) EmptyString = false)
    as -> by by destruct dir.
  cbn [negb andb]. rewrite (rstrip_slash_dir _ _ Hlast Ha').
  by rewrite (before_dot_app _ _ Hdots).
Qed.

Lemma load_config_dir_name_witness :
  load_config (one_module "cfg" session_cfg) ["/usr/lib"]
              "/home/me/cfg.v2.py"
  = (["/usr/lib"; "/home/me"], Imported session_cfg).
Proof.
  apply (load_config_dir_name (one_module "cfg" session_cfg) ["/usr/lib"]
           "/home/me" "cfg" "v2.py" "e"%char); [reflexivity|done| |reflexivity].
  intros c Hc.
  repeat (apply elem_of_cons in Hc as [->|Hc]; [by split|]).
  by apply elem_of_nil in Hc.
Defined.

(** A path that is empty or ends with a slash, and a file whose name
    starts with a dot, give the empty module name: [import_module]
    raises [ValueError] whatever can be imported. *)
Theorem load_config_empty_name
    (finder : list string -> string -> option (gmap string pyval))
    (sys_path : list string) (dir rest : string) :
  has_slash rest = false ->
  (load_config finder sys_path EmptyString).2 = EmptyModuleName /\
  (load_config finder sys_path (dir +:+ "/")).2 = EmptyModuleName /\
  (load_config finder sys_path ("." +:+ rest)).2 = EmptyModuleName /\
  (load_config finder sys_path (dir +:+ "/." +:+ rest)).2 = EmptyModuleName.
Proof.
  intros Hrest.
  assert (Hempty : forall p tail,
            (cut_last_slash p).2 = tail -> before_dot tail = EmptyString ->
            (load_config finder sys_path p).2 = EmptyModuleName).
  { intros p tail Htail Hname.
    rewrite load_config_import.
    by rewrite path_split_tail, Htail, Hname. }
  split; [by apply (Hempty _ EmptyString)|].
  split; [|split].
  - apply (Hempty _ EmptyString); [|done].
    change (dir +:+ "/") with (dir +:+ String "/" EmptyString).
    by rewrite cut_last_slash_app.
  - apply (Hempty _ (String "." rest)); [|done].
    rewrite cut_last_slash_plain; [done|]. simpl. exact Hrest.
  - apply (Hempty _ (String "." rest)); [|done].
    change (dir +:+ "/." +:+ rest)
      with (dir +:+ String "/" (String "." rest)).
    rewrite cut_last_slash_app; [done|]. simpl. exact Hrest.
Qed.

Lemma load_config_empty_name_witness :
  (load_config (one_module "" session_cfg) [] "configs/.hidden.py").2
  = EmptyModuleName.
Proof.
  exact (proj2 (proj2 (proj2 (load_config_empty_name
           (one_module "" session_cfg) [] "configs" "hidden.py" eq_refl)))).
Defined.

(** ** The transposed window *)

(** [window.T] of a window of [n >= 1] samples on [c] channels has [c]
    rows of [n] values, and the value of sample [i] on channel [j] is at
    row [j], column [i]. *)
Theorem transpose_spec (m : matrix) (c : nat) :
  m <> [] ->
  Forall (fun row => length row = c) m ->
  length (transpose m) = c /\
  Forall (fun col => length col = length m) (transpose m) /\
  (forall i j row x,
     m !! i = Some row -> row !! j = Some x ->
     exists col, transpose m !! j = Some col /\ col !! i = Some x).
Proof.
  unfold matrix in *.
  induction m as [|row m IH]; [done|]. intros _ Hrows.
  apply Forall_cons in Hrows as [Hrow Hrows].
  destruct m as [|row' m].
  - simpl. split; [by rewrite length_map|]. split.
    + apply Forall_fmap. by apply Forall_true.
    + intros [|i] j r x [=] Hj. subst r. exists [x]. split; [|done].
      change (map (fun x => [x]) row) with ((fun x : Q => [x]) <$> row).
      by rewrite list_lookup_fmap, Hj.
  - destruct IH as (Hlen & Hcols & Hat); [done|done|].
    change (transpose (row :: row' :: m))
      with (zip_with cons row (transpose (row' :: m))).
    split; [rewrite length_zip_with; lia|]. split.
    + apply Forall_forall. intros col Hcol.
      apply list_elem_of_lookup in Hcol as [j Hj].
      apply lookup_zip_with_Some in Hj as (x & col' & -> & _ & Hcol').
      rewrite Forall_forall in Hcols. cbn [length]. f_equal.
      apply Hcols. by apply list_elem_of_lookup_2 in Hcol'.
    + intros i j r x Hi Hj. destruct i as [|i].
      * injection Hi as ->.
        destruct (lookup_lt_is_Some_2 (transpose (row' :: m)) j)
          as [col' Hcol'].
        { rewrite Hlen, <- Hrow. by apply lookup_lt_Some in Hj. }
        exists (x :: col'). split; [|done].
        apply lookup_zip_with_Some. by exists x, col'.
      * destruct (Hat i j r x Hi Hj) as (col' & Hcol' & Hx).
        destruct (lookup_lt_is_Some_2 row j) as [y Hy].
        { rewrite Hrow, <- Hlen. by apply lookup_lt_Some in Hcol'. }
        exists (y :: col'). split; [|done].
        apply lookup_zip_with_Some. by exists y, col'.
Qed.

Lemma transpose_spec_witness :
  length (transpose [[11; 12; 13]; [21; 22; 23]]%Q) = 3%nat.
Proof.
  refine (proj1 (transpose_spec [[11; 12; 13]; [21; 22; 23]]%Q 3 _ _));
    [done|by repeat constructor].
Defined.
